(** * Coffee SPA: the client-side Router, the module registry behind its
      dynamic imports, and the change-notifying Store.

    The development embeds [services/Router.js] statement by statement in a
    small state-and-completion monad over a record describing the browser
    (session history, document chrome, the children of [<main>], the queue of
    view-transition callbacks, the module registry and the window).  The
    registry and the store, whose sources are not part of [services/Router.js],
    are given by separate modules. *)

From Stdlib Require Import ZArith String Ascii List Lia Bool.
From stdpp Require Import base option list gmap strings.

#[local] Arguments String.append !s1 s2 : simpl nomatch.
Local Open Scope Z_scope.

(** ** JavaScript string primitives used by the Router *)

Module JsString.

(** [s.startsWith(p)] (search position 0). *)
Fixpoint startsWith (s p : string) {struct p} : bool :=
  match p, s with
  | EmptyString, _ => true
  | String _ _, EmptyString => false
  | String b p', String a s' => Ascii.eqb a b && startsWith s' p'
  end.

(** Scan used by [lastIndexOf]: [i] is the index of the head of [s], [acc]
    the last index seen so far at which [c] occurs. *)
Fixpoint lastIndexOf_from (s : string) (c : ascii) (i acc : Z) : Z :=
  match s with
  | EmptyString => acc
  | String a s' =>
      lastIndexOf_from s' c (i + 1) (if Ascii.eqb a c then i else acc)
  end.

(** [s.lastIndexOf(c)] for a one-character search string: the greatest
    index at which [c] occurs, or [-1]. *)
Definition lastIndexOf (s : string) (c : ascii) : Z :=
  lastIndexOf_from s c 0 (-1).

Fixpoint skip (n : nat) (s : string) : string :=
  match n, s with
  | O, _ => s
  | S _, EmptyString => EmptyString
  | S n', String _ s' => skip n' s'
  end.

(** [s.substring(start)]: a negative [start] counts as 0, one beyond the
    length as the length. *)
Definition substring (s : string) (start : Z) : string :=
  skip (Z.to_nat (Z.max 0 start)) s.

(** [c] occurs in [s]. *)
Fixpoint occurs (c : ascii) (s : string) : bool :=
  match s with
  | EmptyString => false
  | String a s' => Ascii.eqb a c || occurs c s'
  end.

End JsString.

Import JsString.

(** ** The module registry behind [import(...)] *)

Module ModuleRegistry.

(** A loaded module (its namespace object), identified by its source text. *)
Definition Artifact := string.

(** Modelled from the spec: the registry that the Router reaches through
    [await import(...)] is the JavaScript runtime's module map, which is not
    part of the repository's sources.  It follows sections 4.2 and 9 of the
    specification: each view name is [NotLoaded] (no slot), [Loading] (one
    load in flight, with the calls waiting for it) or [Loaded] with the
    artifact or the load's failure, and the settled slot is kept for the
    lifetime of the process. *)
Inductive Slot :=
| Loading (waiters : list nat)
| Loaded (res : option Artifact).

Record t := {
  slots : gmap string Slot;
  (** underlying loads performed so far, oldest first *)
  started : list string;
  (** calls settled so far: call, view name, artifact or failure *)
  settled : list (nat * string * option Artifact);
  (** number of [ensureLoaded] calls made so far; names the next call *)
  calls : nat
}.

Definition empty : t :=
  {| slots := ∅; started := []; settled := []; calls := 0 |}.

(** Modelled from the spec: [ensureLoaded(viewName)], up to the point where
    the caller is suspended.  The first call for a view starts the load; a
    call during the load joins its waiters; a call after it settles at once
    with the cached result. *)
Definition ensureLoaded (v : string) (r : t) : t :=
  let c := calls r in
  match slots r !! v with
  | None =>
      {| slots := <[v := Loading [c]]> (slots r);
         started := started r ++ [v];
         settled := settled r;
         calls := S c |}
  | Some (Loading ws) =>
      {| slots := <[v := Loading (ws ++ [c])]> (slots r);
         started := started r;
         settled := settled r;
         calls := S c |}
  | Some (Loaded res) =>
      {| slots := slots r;
         started := started r;
         settled := settled r ++ [(c, v, res)];
         calls := S c |}
  end.

(** Modelled from the spec: the load in flight for [v] ends with [res]
    ([None] for a missing or corrupt module); every waiting call settles
    with that result.  Without a load in flight nothing happens. *)
Definition complete (v : string) (res : option Artifact) (r : t) : t :=
  match slots r !! v with
  | Some (Loading ws) =>
      {| slots := <[v := Loaded res]> (slots r);
         started := started r;
         settled := settled r ++ map (fun c => (c, v, res)) ws;
         calls := calls r |}
  | _ => r
  end.

(** What the event loop can do to the registry between two tasks. *)
Inductive Event :=
| Call (v : string)
| Done (v : string) (res : option Artifact).

Definition step (r : t) (e : Event) : t :=
  match e with
  | Call v => ensureLoaded v r
  | Done v res => complete v res r
  end.

Definition run (es : list Event) (r : t) : t := fold_left step es r.

(** A call that runs its load to completion before anything else happens:
    the registry after [ensureLoaded v] and, if that leaves a load in flight,
    after the load ended with what [source] holds for [v]. *)
Definition ensureLoaded_now (source : gmap string Artifact) (v : string)
    (r : t) : t :=
  let r1 := ensureLoaded v r in
  match slots r1 !! v with
  | Some (Loading _) => complete v (source !! v) r1
  | _ => r1
  end.

(** The result a settled slot holds for [v]. *)
Definition result (v : string) (r : t) : option Artifact :=
  match slots r !! v with
  | Some (Loaded res) => res
  | _ => None
  end.

(** Number of underlying loads performed for [v]. *)
Definition loads (v : string) (r : t) : nat :=
  length (filter (fun x => x = v) (started r)).

(** Registry invariant: a view has a slot exactly when its load was started,
    no load was started twice, and every settled call holds the result of
    its view's settled slot. *)
Record wf (r : t) : Prop := {
  wf_started : forall v, v ∈ started r <-> is_Some (slots r !! v);
  wf_nodup : NoDup (started r);
  wf_settled : forall c v res,
    (c, v, res) ∈ settled r -> slots r !! v = Some (Loaded res)
}.

End ModuleRegistry.

(** ** The browser as the Router sees it *)

Module Browser.

Import ModuleRegistry.

(** A page element: a custom element's tag and its [dataset.productId]. *)
Record Element := { tagName : string; productId : option string }.

(** The state object [{ route }] that [go] hands to [history.pushState];
    [route] is a string, or [null] ([None]) when [go] was handed [null]. *)
Record NavigationEntry := { route : option string }.

(** A session history entry: its state object, and the pathname of its URL.
    An entry made by loading a document or by a fragment navigation carries
    no state object. *)
Record HistoryItem := { state : option NavigationEntry; path : string }.

Inductive Error :=
| TypeError
| SecurityError
| LoadError (specifier : string).

(** Effects in the order in which they happen.  [EPushState r] is a push
    with URL [r] that the platform accepted, [EPushStateHere] a push with a
    [null] URL; [EScrollX x] is the assignment [window.scrollX = x]. *)
Inductive Effect :=
| EPushState (r : string)
| EPushStateHere
| ECreateElement (tag : string)
| ETitle (t : string)
| EThemeColor (c : string)
| EImport (specifier : string)
| EImportSettled (specifier : string) (ok : bool)
| EStartViewTransition
| ERemove (e : Element)
| EAppend (e : Element)
| EScrollX (x : Z).

(** What the platform's URL parser answers for the document, which the
    sources do not fix: whether a URL string that is not a plain absolute
    path resolves to the document's own origin ([sameOrigin]), and the
    pathname of the URL that a string resolves to against a base pathname
    ([pathOf base u]: query and fragment dropped, dot segments resolved,
    characters percent-encoded, an empty string giving the base). *)
Record Site := {
  sameOrigin : string -> bool;
  pathOf : string -> string -> string
}.

(** The state of the page.  The document is the application shell, served
    over http(s) as the README asks and without a [<base>] element: it has
    the [<main>] element and the [meta[name="theme-color"]] element that the
    Router looks up, so these lookups never yield [null]. *)
Record World := {
  (** session history, oldest entry first, and the index of the current one *)
  entries : list HistoryItem;
  current : nat;
  (** [Router.init] has registered its popstate listener *)
  listening : bool;
  (** [document.title] and the content of [meta[name="theme-color"]] *)
  title : string;
  themeColor : string;
  (** the element children of [<main>] *)
  mainChildren : list Element;
  (** [document.startViewTransition] exists *)
  viewTransitions : bool;
  (** update callbacks handed to [startViewTransition] and not yet run; each
      is [changePage] closed over its [pageElement] *)
  pendingSwaps : list Element;
  registry : ModuleRegistry.t;
  (** what a load of each module specifier yields; absent when it fails *)
  network : gmap string Artifact;
  site : Site;
  (** the horizontal scroll offset of the viewport *)
  scrollLeft : Z;
  (** the own property [scrollX] of the window, once an assignment has
      created it; it then shadows the inherited accessor *)
  ownScrollX : option Z;
  trace : list Effect
}.

Definition with_history (es : list HistoryItem) (i : nat) (w : World) :=
  {| entries := es; current := i; listening := listening w; title := title w;
     themeColor := themeColor w; mainChildren := mainChildren w;
     viewTransitions := viewTransitions w; pendingSwaps := pendingSwaps w;
     registry := registry w; network := network w; site := site w;
     scrollLeft := scrollLeft w; ownScrollX := ownScrollX w;
     trace := trace w |}.

Definition with_listening (b : bool) (w : World) :=
  {| entries := entries w; current := current w; listening := b;
     title := title w; themeColor := themeColor w;
     mainChildren := mainChildren w; viewTransitions := viewTransitions w;
     pendingSwaps := pendingSwaps w; registry := registry w;
     network := network w; site := site w; scrollLeft := scrollLeft w;
     ownScrollX := ownScrollX w; trace := trace w |}.

Definition with_title (t : string) (w : World) :=
  {| entries := entries w; current := current w; listening := listening w;
     title := t; themeColor := themeColor w; mainChildren := mainChildren w;
     viewTransitions := viewTransitions w; pendingSwaps := pendingSwaps w;
     registry := registry w; network := network w; site := site w;
     scrollLeft := scrollLeft w; ownScrollX := ownScrollX w;
     trace := trace w |}.

Definition with_themeColor (c : string) (w : World) :=
  {| entries := entries w; current := current w; listening := listening w;
     title := title w; themeColor := c; mainChildren := mainChildren w;
     viewTransitions := viewTransitions w; pendingSwaps := pendingSwaps w;
     registry := registry w; network := network w; site := site w;
     scrollLeft := scrollLeft w; ownScrollX := ownScrollX w;
     trace := trace w |}.

Definition with_mainChildren (l : list Element) (w : World) :=
  {| entries := entries w; current := current w; listening := listening w;
     title := title w; themeColor := themeColor w; mainChildren := l;
     viewTransitions := viewTransitions w; pendingSwaps := pendingSwaps w;
     registry := registry w; network := network w; site := site w;
     scrollLeft := scrollLeft w; ownScrollX := ownScrollX w;
     trace := trace w |}.

Definition with_viewTransitions (b : bool) (w : World) :=
  {| entries := entries w; current := current w; listening := listening w;
     title := title w; themeColor := themeColor w;
     mainChildren := mainChildren w; viewTransitions := b;
     pendingSwaps := pendingSwaps w; registry := registry w;
     network := network w; site := site w; scrollLeft := scrollLeft w;
     ownScrollX := ownScrollX w; trace := trace w |}.

Definition with_pendingSwaps (l : list Element) (w : World) :=
  {| entries := entries w; current := current w; listening := listening w;
     title := title w; themeColor := themeColor w;
     mainChildren := mainChildren w; viewTransitions := viewTransitions w;
     pendingSwaps := l; registry := registry w; network := network w;
     site := site w; scrollLeft := scrollLeft w; ownScrollX := ownScrollX w;
     trace := trace w |}.

Definition with_registry (r : ModuleRegistry.t) (w : World) :=
  {| entries := entries w; current := current w; listening := listening w;
     title := title w; themeColor := themeColor w;
     mainChildren := mainChildren w; viewTransitions := viewTransitions w;
     pendingSwaps := pendingSwaps w; registry := r; network := network w;
     site := site w; scrollLeft := scrollLeft w; ownScrollX := ownScrollX w;
     trace := trace w |}.

Definition with_scrollLeft (x : Z) (w : World) :=
  {| entries := entries w; current := current w; listening := listening w;
     title := title w; themeColor := themeColor w;
     mainChildren := mainChildren w; viewTransitions := viewTransitions w;
     pendingSwaps := pendingSwaps w; registry := registry w;
     network := network w; site := site w; scrollLeft := x;
     ownScrollX := ownScrollX w; trace := trace w |}.

Definition with_ownScrollX (x : option Z) (w : World) :=
  {| entries := entries w; current := current w; listening := listening w;
     title := title w; themeColor := themeColor w;
     mainChildren := mainChildren w; viewTransitions := viewTransitions w;
     pendingSwaps := pendingSwaps w; registry := registry w;
     network := network w; site := site w; scrollLeft := scrollLeft w;
     ownScrollX := x; trace := trace w |}.

Definition log (e : Effect) (w : World) :=
  {| entries := entries w; current := current w; listening := listening w;
     title := title w; themeColor := themeColor w;
     mainChildren := mainChildren w; viewTransitions := viewTransitions w;
     pendingSwaps := pendingSwaps w; registry := registry w;
     network := network w; site := site w; scrollLeft := scrollLeft w;
     ownScrollX := ownScrollX w; trace := trace w ++ [e] |}.

(** *** Computations: a state monad over [World] with abrupt completion

    For an [async] function the completion is the settlement of the promise
    it returns: [Normal] when fulfilled, [Abrupt] when rejected. *)

Inductive Completion (A : Type) :=
| Normal (a : A)
| Abrupt (e : Error).
Arguments Normal {A} a.
Arguments Abrupt {A} e.

Definition Js (A : Type) : Type := World -> Completion A * World.

Definition ret {A} (a : A) : Js A := fun w => (Normal a, w).

Definition bind {A B} (m : Js A) (k : A -> Js B) : Js B := fun w =>
  match m w with
  | (Normal a, w') => k a w'
  | (Abrupt e, w') => (Abrupt e, w')
  end.

Definition throw {A} (e : Error) : Js A := fun w => (Abrupt e, w).

(** Run [m] for its effect on the world alone. *)
Definition exec {A} (m : Js A) (w : World) : World := snd (m w).

(** Call an [async] function without awaiting it: the caller goes on
    normally whatever becomes of the promise. *)
Definition detached {A} (m : Js A) : Js unit := fun w => (Normal tt, exec m w).

Declare Scope js_scope.
Delimit Scope js_scope with js.
Notation "x ← y ; z" := (bind y (fun x => z))
  (at level 20, y at level 100, z at level 200, only parsing) : js_scope.
Notation "x ;; z" := (bind x (fun _ => z))
  (at level 100, z at level 200, only parsing, right associativity)
  : js_scope.
Local Open Scope js_scope.

(** *** Platform operations *)

(** [location.pathname]: the pathname of the current entry's URL. *)
Definition pathname (w : World) : string :=
  match entries w !! current w with
  | Some it => path it
  | None => "/"
  end.

(** A URL string that is an absolute path: it begins with one ['/'] that is
    not followed by ['/'], by a backslash, or by a tab or newline (which the
    URL parser drops before it looks for a second slash).  Against an
    http(s) document such a string always parses, and to a URL of the
    document's origin. *)
Definition path_absolute (u : string) : bool :=
  match u with
  | String "/" EmptyString => true
  | String "/" (String c _) =>
      negb (Ascii.eqb c "/" || Ascii.eqb c "\" || Ascii.eqb c "009"
            || Ascii.eqb c "010" || Ascii.eqb c "013")
  | _ => false
  end.

(** [history.pushState] accepts the URL string [u]: it parses to a URL of the
    document's origin. *)
Definition accepts (w : World) (u : string) : bool :=
  path_absolute u || sameOrigin (site w) u.

(** The world after an accepted [history.pushState(st, '', u)]: the entries
    after the current one are dropped, the new entry is appended and becomes
    current.  With [u] [null] the URL stays that of the current entry. *)
Definition pushed (st : NavigationEntry) (u : option string) (w : World)
  : World :=
  let kept := take (S (current w)) (entries w) in
  let p := match u with
           | Some r => pathOf (site w) (pathname w) r
           | None => pathname w
           end in
  log (match u with Some r => EPushState r | None => EPushStateHere end)
    (with_history (kept ++ [{| state := Some st; path := p |}])
       (length kept) w).

(** [history.pushState(st, '', u)]: a URL that does not parse or lies
    outside the document's origin throws a [SecurityError] and nothing is
    pushed; a [null] URL is never refused. *)
Definition pushState (st : NavigationEntry) (u : option string) : Js unit :=
  fun w =>
    match u with
    | Some r =>
        if accepts w r then (Normal tt, pushed st u w)
        else (Abrupt SecurityError, w)
    | None => (Normal tt, pushed st u w)
    end.

(** [document.createElement(tag)] *)
Definition createElement (tag : string) : Js Element := fun w =>
  (Normal {| tagName := tag; productId := None |}, log (ECreateElement tag) w).

Definition set_title (t : string) : Js unit := fun w =>
  (Normal tt, log (ETitle t) (with_title t w)).

Definition set_themeColor (c : string) : Js unit := fun w =>
  (Normal tt, log (EThemeColor c) (with_themeColor c w)).

(** [await import(specifier)]: the call reaches the registry, the function
    is suspended until the call has settled and resumes with the module, or
    ends with the load's error.  Navigations do not overlap, so the load
    runs to completion with nothing else in between; both ends of the wait
    are logged. *)
Definition import_ (specifier : string) : Js Artifact := fun w =>
  let r := ensureLoaded_now (network w) specifier (registry w) in
  let w1 := with_registry r (log (EImport specifier) w) in
  match result specifier r with
  | Some a => (Normal a, log (EImportSettled specifier true) w1)
  | None =>
      (Abrupt (LoadError specifier), log (EImportSettled specifier false) w1)
  end.

(** [document.querySelector('main').firstElementChild] *)
Definition firstElementChild (w : World) : option Element :=
  head (mainChildren w).

(** [currentPage.remove()] for the first child of [<main>]. *)
Definition remove (e : Element) : Js unit := fun w =>
  (Normal tt, log (ERemove e) (with_mainChildren (tail (mainChildren w)) w)).

(** [document.querySelector('main').appendChild(e)] for a new element. *)
Definition appendChild (e : Element) : Js unit := fun w =>
  (Normal tt, log (EAppend e) (with_mainChildren (mainChildren w ++ [e]) w)).

(** [document.startViewTransition(callback)] where the callback is
    [changePage] for [pageElement]: the callback is queued and runs later,
    once the old state has been captured. *)
Definition startViewTransition (pageElement : Element) : Js unit := fun w =>
  (Normal tt,
   log EStartViewTransition
     (with_pendingSwaps (pendingSwaps w ++ [pageElement]) w)).

(** [window.scrollX = x].  [scrollX] is a replaceable read-only attribute of
    the window: the assignment creates an own property that shadows it and
    does not scroll the viewport. *)
Definition set_scrollX (x : Z) : Js unit := fun w =>
  (Normal tt, log (EScrollX x) (with_ownScrollX (Some x) w)).

(** Reading [window.scrollX]: the own property if there is one, else the
    scroll offset of the viewport. *)
Definition get_scrollX (w : World) : Z :=
  match ownScrollX w with
  | Some x => x
  | None => scrollLeft w
  end.

(** The effect is a history push. *)
Definition is_push (e : Effect) : bool :=
  match e with
  | EPushState _ | EPushStateHere => true
  | _ => false
  end.

(** The effect creates a page element or changes, now or through a
    transition callback, the children of [<main>]. *)
Definition is_mount (e : Effect) : bool :=
  match e with
  | ECreateElement _ | EStartViewTransition | ERemove _ | EAppend _ => true
  | _ => false
  end.

(** What a call of [import(specifier)] made now would settle with: the
    result already cached, else what the load yields. *)
Definition loadable (specifier : string) (w : World) : option Artifact :=
  match slots (registry w) !! specifier with
  | Some (Loaded res) => res
  | _ => network w !! specifier
  end.

End Browser.

(** ** [services/Router.js] *)

Module Router.

Import ModuleRegistry Browser.
Local Open Scope js_scope.

Definition OrderPage_js : string := "../components/OrderPage.js".
Definition DetailsPage_js : string := "../components/DetailsPage.js".

(** [Router.setMetadata(title, color)] *)
Definition setMetadata (title color : string) : Js unit :=
  set_title (title +:+ " - Coffee Shop") ;;
  set_themeColor color.

Definition with_productId (id : string) (e : Element) : Element :=
  {| tagName := tagName e; productId := Some id |}.

(** The [switch (route)] of [Router.go] (lines 47 to 72): the value left in
    [pageElement], [None] standing for [null]. *)
Definition selectPage (route : string) : Js (option Element) :=
  if String.eqb route "/" then
    pageElement ← createElement "menu-page";
    setMetadata "Menu" "#fff" ;;
    ret (Some pageElement)
  else if String.eqb route "/order" then
    _ ← import_ OrderPage_js;
    pageElement ← createElement "order-page";
    setMetadata "Your Order" "#f60" ;;
    ret (Some pageElement)
  else if startsWith route "/product-" then
    setMetadata "Product Details" "#f0f" ;;
    _ ← import_ DetailsPage_js;
    pageElement ← createElement "details-page";
    ret (Some (with_productId
                 (substring route (lastIndexOf route "-" + 1)) pageElement))
  else ret None.

(** The inner function [changePage] of [Router.go], closed over
    [pageElement]. *)
Definition changePage (pageElement : Element) : Js unit := fun w =>
  match firstElementChild w with
  | Some currentPage => (remove currentPage ;; appendChild pageElement) w
  | None => appendChild pageElement w
  end.

(** [if (pageElement) { ... }] of [Router.go] (lines 73 to 95). *)
Definition swapPage (pageElement : option Element) : Js unit := fun w =>
  match pageElement with
  | Some el =>
      if viewTransitions w then startViewTransition el w else changePage el w
  | None => ret tt w
  end.

(** [Router.go(route, addToHistory)] for a string [route]; the completion
    is the settlement of the promise the [async] function returns. *)
Definition go (route : string) (addToHistory : bool) : Js unit :=
  (if addToHistory
   then pushState {| Browser.route := Some route |} (Some route)
   else ret tt) ;;
  pageElement ← selectPage route;
  swapPage pageElement ;;
  set_scrollX 0.

(** [Router.go(null, addToHistory)]: the push, with a [null] URL, is never
    refused; no [case] equals [null], and the [default] branch throws a
    [TypeError] at [route.startsWith]. *)
Definition go_null (addToHistory : bool) : Js unit :=
  (if addToHistory then pushState {| Browser.route := None |} None
   else ret tt) ;;
  throw TypeError.

(** [Router.go] for a route that is a string or [null]. *)
Definition go_value (route : option string) (addToHistory : bool) : Js unit :=
  match route with
  | Some r => go r addToHistory
  | None => go_null addToHistory
  end.

(** The click listener that [Router.init] puts on each [a.navlink]; [href]
    is [event.target.getAttribute('href')], [None] for [null] (the target
    is an element without that attribute, such as a child of the link).
    The promise of [Router.go] is not awaited. *)
Definition onNavClick (href : option string) : Js unit :=
  detached (go_value href true).

(** The popstate listener of [Router.init]: [event.state.route] is read
    before [Router.go] is called, and the promise is not awaited. *)
Definition onPopState (st : option NavigationEntry) : Js unit :=
  match st with
  | None => throw TypeError
  | Some s => detached (go_value (Browser.route s) false)
  end.

(** [Router.init()]: the click listeners are [onNavClick] for each link, the
    popstate listener is [onPopState]; the initial [Router.go] is not
    awaited. *)
Definition init : Js unit := fun w =>
  detached (go (pathname w) true) (with_listening true w).

(** *** The platform around the Router *)

(** The pending view-transition callbacks run, oldest first. *)
Definition runSwaps (w : World) : World :=
  fold_left (fun w' el => exec (changePage el) w')
    (pendingSwaps w) (with_pendingSwaps [] w).

(** [history.go(delta)] as the user's back and forward buttons perform it:
    when the target entry exists it becomes current and a popstate event
    carrying its state is dispatched to the listener, if registered.  The
    completion is that of the listener. *)
Definition traverse (delta : Z) : Js unit := fun w =>
  let target := Z.of_nat (current w) + delta in
  if (target <? 0) || (Z.of_nat (length (entries w)) <=? target)
  then (Normal tt, w)
  else
    let w1 := with_history (entries w) (Z.to_nat target) w in
    match entries w !! Z.to_nat target with
    | Some it => if listening w then onPopState (state it) w1
                 else (Normal tt, w1)
    | None => (Normal tt, w1)
    end.

(** A freshly loaded document whose URL has the pathname [u]: one history
    entry without state, an empty [<main>], nothing imported yet, the
    viewport not scrolled. *)
Definition boot (s : Site) (u : string) (vt : bool)
    (net : gmap string Artifact) : World :=
  {| entries := [{| state := None; path := u |}]; current := 0;
     listening := false; title := ""; themeColor := "";
     mainChildren := []; viewTransitions := vt; pendingSwaps := [];
     registry := ModuleRegistry.empty; network := net; site := s;
     scrollLeft := 0; ownScrollX := None; trace := [] |}.

(** The site of the examples: no URL string other than an absolute path is
    of the document's origin, and a URL string is its own pathname, which is
    what the parser answers for the routes of the examples (absolute paths
    of letters, digits, ['/'] and ['-']). *)
Definition exampleSite : Site :=
  {| sameOrigin := fun _ => false; pathOf := fun _ u => u |}.

(** A network that serves both page modules, and the application after
    [Router.init] ran on a fresh document at ["/"] with it. *)
Definition pages : gmap string Artifact :=
  <[OrderPage_js := "OrderPage"]> (<[DetailsPage_js := "DetailsPage"]> ∅).

Definition home : World := exec init (boot exampleSite "/" false pages).

(** The same application when no page module can be loaded. *)
Definition offline : World := exec init (boot exampleSite "/" false ∅).

(** What [changePage] makes of the children of [<main>]. *)
Definition swapped (el : Element) (children : list Element) : list Element :=
  tail children ++ [el].

(** *** The views of the specification *)

Inductive View := MenuView | OrderView | DetailsView.

Definition tag_of (v : View) : string :=
  match v with
  | MenuView => "menu-page"
  | OrderView => "order-page"
  | DetailsView => "details-page"
  end.

(** The page element that stands for a view and its parameter. *)
Definition element_of (v : View) (param : option string) : Element :=
  {| tagName := tag_of v; productId := param |}.

(** The module a view needs before it can be created; the menu view is
    loaded with the application. *)
Definition module_of (v : View) : option string :=
  match v with
  | MenuView => None
  | OrderView => Some OrderPage_js
  | DetailsView => Some DetailsPage_js
  end.

(** What the [switch] has to end with for a resolved view and parameter
    ([None] when the route stands for no view): the view's element, or the
    rejection of the import when the view's module cannot be loaded. *)
Definition outcome_of (r : option (View * option string)) (w : World)
  : Completion (option Element) :=
  match r with
  | None => Normal None
  | Some (view, param) =>
      match module_of view with
      | None => Normal (Some (element_of view param))
      | Some m =>
          match loadable m w with
          | Some _ => Normal (Some (element_of view param))
          | None => Abrupt (LoadError m)
          end
      end
  end.

(** *** Observations on a run *)

(** The part of the world that neither the display slot nor the
    view-transition capability enters: session history, listener, chrome,
    registry and network. *)
Definition core (w : World) :=
  (entries w, current w, listening w, title w, themeColor w, registry w,
   network w).

(** The specifiers of the [import(...)] calls among the effects, in order. *)
Fixpoint imports (evs : list Effect) : list string :=
  match evs with
  | [] => []
  | EImport specifier :: evs' => specifier :: imports evs'
  | _ :: evs' => imports evs'
  end.

(** [Router.go] is asked to push and the platform refuses the route as a
    URL. *)
Definition refused (route : string) (addToHistory : bool) (w : World) : bool :=
  addToHistory && negb (accepts w route).

(** Calls of [Router.go] one after the other, each run to its end before the
    next; a navigation is a route and its [addToHistory]. *)
Definition navigate (navs : list (string * bool)) (w : World) : World :=
  fold_left (fun w' n => exec (go (fst n) (snd n)) w') navs w.

End Router.

(** ** The state store *)

Module Store.

Inductive Field := menu | cart.

(** The two notification kinds, [menu-changed] and [cart-changed]. *)
Inductive Kind := MenuChanged | CartChanged.

Definition kind_of (f : Field) : Kind :=
  match f with
  | menu => MenuChanged
  | cart => CartChanged
  end.

Section WithValue.

(** The values a field can hold: menu data, a sequence of cart lines,
    [null]; the store never looks inside them. *)
Variable Value : Type.

Record AppState := { menu_value : Value; cart_value : Value }.

Definition get (f : Field) (a : AppState) : Value :=
  match f with
  | menu => menu_value a
  | cart => cart_value a
  end.

Definition set (f : Field) (v : Value) (a : AppState) : AppState :=
  match f with
  | menu => {| menu_value := v; cart_value := cart_value a |}
  | cart => {| menu_value := menu_value a; cart_value := v |}
  end.

(** A subscriber.  The notification carries no payload, so all a handler
    can learn it reads from the state; [returns] tells whether it ends
    normally on that state or throws. *)
Record Handler := { hid : nat; returns : AppState -> bool }.

(** One handler invocation: who ran, for which notification, the state
    it could read, and whether it returned normally. *)
Record Invocation := {
  who : nat;
  what : Kind;
  seen : AppState;
  returned : bool
}.

Record t := {
  state : AppState;
  menuHandlers : list Handler;
  cartHandlers : list Handler;
  (** handler invocations so far, oldest first *)
  invoked : list Invocation
}.

Definition handlers (k : Kind) (s : t) : list Handler :=
  match k with
  | MenuChanged => menuHandlers s
  | CartChanged => cartHandlers s
  end.

Definition invoke (k : Kind) (a : AppState) (h : Handler) : Invocation :=
  {| who := hid h; what := k; seen := a; returned := returns h a |}.

(** Modelled from the spec: [services/Store.js] is not among the sources.
    [read(field)] returns the current value of the field. *)
Definition read (f : Field) (s : t) : Value := get f (state s).

(** Modelled from the spec: [services/Store.js] is not among the sources.
    [write(field, value)] replaces the field's value in full, then emits
    the matching notification synchronously: every handler registered
    for it runs, in registration order, a throwing handler not keeping
    the later ones from running. *)
Definition write (f : Field) (v : Value) (s : t) : t :=
  let committed := set f v (state s) in
  {| state := committed;
     menuHandlers := menuHandlers s;
     cartHandlers := cartHandlers s;
     invoked :=
       invoked s ++ map (invoke (kind_of f) committed)
                        (handlers (kind_of f) s) |}.

(** Modelled from the spec: [services/Store.js] is not among the sources.
    [subscribe(kind, handler)] registers the handler after those already
    registered for the kind. *)
Definition subscribe (k : Kind) (h : Handler) (s : t) : t :=
  match k with
  | MenuChanged =>
      {| state := state s; menuHandlers := menuHandlers s ++ [h];
         cartHandlers := cartHandlers s; invoked := invoked s |}
  | CartChanged =>
      {| state := state s; menuHandlers := menuHandlers s;
         cartHandlers := cartHandlers s ++ [h]; invoked := invoked s |}
  end.

(** A store holding [a] to which the handlers [hs] subscribe for [k], in
    that order, before anything is written. *)
Definition subscribed (a : AppState) (k : Kind) (hs : list Handler) : t :=
  fold_left (fun s h => subscribe k h s) hs
    {| state := a; menuHandlers := []; cartHandlers := [];
       invoked := [] |}.

End WithValue.

Arguments menu_value {Value} _.
Arguments cart_value {Value} _.
Arguments get {Value} _ _.
Arguments set {Value} _ _ _.
Arguments hid {Value} _.
Arguments returns {Value} _ _.
Arguments who {Value} _.
Arguments what {Value} _.
Arguments seen {Value} _.
Arguments returned {Value} _.
Arguments state {Value} _.
Arguments menuHandlers {Value} _.
Arguments cartHandlers {Value} _.
Arguments invoked {Value} _.
Arguments handlers {Value} _ _.
Arguments invoke {Value} _ _ _.
Arguments read {Value} _ _.
Arguments write {Value} _ _ _.
Arguments subscribe {Value} _ _ _.
Arguments subscribed {Value} _ _ _.

End Store.

(** * Properties *)

(** ** Strings *)

Section JsStringFacts.

Lemma startsWith_app (p t : string) : startsWith (p +:+ t) p = true.
Proof.
  induction p as [|b p IH]; simpl.
  - reflexivity.
  - now rewrite Ascii.eqb_refl, IH.
Qed.

Lemma startsWith_split (p s : string) :
  startsWith s p = true -> exists t, s = p +:+ t.
Proof.
  revert s. induction p as [|b p IH]; intros s H.
  - exists s. reflexivity.
  - destruct s as [|a s]; simpl in H; [discriminate|].
    apply andb_prop in H as [Hab Hs].
    apply Ascii.eqb_eq in Hab. subst b.
    destruct (IH _ Hs) as [t ->]. exists t. reflexivity.
Qed.

Lemma occurs_app (c : ascii) (s t : string) :
  occurs c (s +:+ t) = occurs c s || occurs c t.
Proof.
  induction s as [|a s IH]; simpl; [reflexivity|].
  now rewrite IH, orb_assoc.
Qed.

Lemma skip_past (c : ascii) (pre post : string) :
  skip (S (String.length pre)) (pre +:+ String c post) = post.
Proof. induction pre as [|a pre IH]; simpl; [now destruct post | exact IH]. Qed.

(** The scan finds the decomposition of [s] around the last [c]: either
    [c] is absent, or [s = pre ++ c :: post] with [c] absent from [post]
    and the result the index of that [c]. *)
Lemma lastIndexOf_from_spec (c : ascii) (s : string) (i acc : Z) :
  (occurs c s = false /\ lastIndexOf_from s c i acc = acc) \/
  (exists pre post,
      s = pre +:+ String c post /\ occurs c post = false /\
      lastIndexOf_from s c i acc = i + Z.of_nat (String.length pre)).
Proof.
  revert i acc. induction s as [|a s IH]; intros i acc; simpl.
  - left. split; reflexivity.
  - destruct (IH (i + 1) (if Ascii.eqb a c then i else acc))
      as [[Habs Hres] | (pre & post & Hs & Hpost & Hres)].
    + destruct (Ascii.eqb a c) eqn:Hac.
      * right. exists EmptyString, s. apply Ascii.eqb_eq in Hac. subst a.
        simpl. repeat split; [exact Habs | rewrite Hres; lia].
      * left. split; [exact Habs | exact Hres].
    + right. exists (String a pre), post. subst s. simpl.
      repeat split; [exact Hpost | rewrite Hres; lia].
Qed.

(** What [s.substring(s.lastIndexOf(c) + 1)] computes when [c] occurs. *)
Lemma substring_after_last (c : ascii) (s : string) :
  occurs c s = true ->
  exists pre,
    s = pre +:+ String c (substring s (lastIndexOf s c + 1)) /\
    occurs c (substring s (lastIndexOf s c + 1)) = false.
Proof.
  intros Hocc. unfold lastIndexOf.
  destruct (lastIndexOf_from_spec c s 0 (-1))
    as [[Habs _] | (pre & post & Hs & Hpost & Hres)]; [congruence|].
  exists pre. rewrite Hres. unfold substring.
  replace (Z.to_nat (Z.max 0 (0 + Z.of_nat (String.length pre) + 1)))
    with (S (String.length pre)) by lia.
  rewrite Hs at 2 3. rewrite skip_past. split; [exact Hs | exact Hpost].
Qed.

End JsStringFacts.

(** ** The module registry *)

Section RegistryFacts.

Import ModuleRegistry.

Lemma wf_empty : wf empty.
Proof.
  split; simpl.
  - intros v. rewrite lookup_empty. split.
    + intros H. inversion H.
    + intros [x Hx]. discriminate.
  - constructor.
  - intros c v res H. inversion H.
Qed.

Lemma wf_ensureLoaded (v : string) (r : t) : wf r -> wf (ensureLoaded v r).
Proof.
  intros [Hst Hnd Hse]. unfold ensureLoaded.
  destruct (slots r !! v) as [[ws|res]|] eqn:Hv; split; simpl.
  - intros u. rewrite Hst. destruct (decide (v = u)) as [->|Hne].
    + rewrite lookup_insert_eq, Hv. split; eauto.
    + rewrite lookup_insert_ne by done. reflexivity.
  - exact Hnd.
  - intros c u res Hin. destruct (decide (v = u)) as [->|Hne].
    + apply Hse in Hin. congruence.
    + rewrite lookup_insert_ne by done. eauto.
  - exact Hst.
  - exact Hnd.
  - intros c u res' Hin. apply elem_of_app in Hin as [Hin|Hin]; [eauto|].
    apply list_elem_of_singleton in Hin. congruence.
  - intros u. rewrite elem_of_app, list_elem_of_singleton, Hst.
    destruct (decide (v = u)) as [->|Hne].
    + rewrite lookup_insert_eq. split; eauto.
    + rewrite lookup_insert_ne by done. split; [|tauto].
      intros [H|H]; [exact H | congruence].
  - apply NoDup_app. repeat split.
    + exact Hnd.
    + intros u Hu Hu'. apply list_elem_of_singleton in Hu'. subst u.
      apply Hst in Hu. rewrite Hv in Hu. destruct Hu; discriminate.
    + apply NoDup_singleton.
  - intros c u res Hin. destruct (decide (v = u)) as [->|Hne].
    + apply Hse in Hin. congruence.
    + rewrite lookup_insert_ne by done. eauto.
Qed.

Lemma wf_complete (v : string) (res : option Artifact) (r : t) :
  wf r -> wf (complete v res r).
Proof.
  intros Hwf. unfold complete.
  destruct (slots r !! v) as [[ws|res']|] eqn:Hv; try exact Hwf.
  destruct Hwf as [Hst Hnd Hse]. split; simpl.
  - intros u. rewrite Hst. destruct (decide (v = u)) as [->|Hne].
    + rewrite lookup_insert_eq, Hv. split; eauto.
    + rewrite lookup_insert_ne by done. reflexivity.
  - exact Hnd.
  - intros c u res0 Hin. apply elem_of_app in Hin as [Hin|Hin].
    + destruct (decide (v = u)) as [->|Hne].
      * apply Hse in Hin. congruence.
      * rewrite lookup_insert_ne by done. eauto.
    + apply list_elem_of_fmap in Hin as (c' & Heq & _).
      inversion Heq; subst. apply lookup_insert_eq.
Qed.

Lemma wf_step (r : t) (e : Event) : wf r -> wf (step r e).
Proof. destruct e; simpl; auto using wf_ensureLoaded, wf_complete. Qed.

Lemma wf_run (es : list Event) (r : t) : wf r -> wf (run es r).
Proof.
  revert r. induction es as [|e es IH]; intros r Hwf; simpl.
  - exact Hwf.
  - apply IH, wf_step, Hwf.
Qed.

Lemma wf_ensureLoaded_now (src : gmap string Artifact) (v : string) (r : t) :
  wf r -> wf (ensureLoaded_now src v r).
Proof.
  intros Hwf. unfold ensureLoaded_now.
  pose proof (wf_ensureLoaded v r Hwf) as H1.
  destruct (slots (ensureLoaded v r) !! v) as [[ws|res]|]; auto.
  now apply wf_complete.
Qed.

Lemma filter_eq_absent (v : string) (l : list string) :
  v ∉ l -> filter (fun x => x = v) l = [].
Proof.
  induction l as [|x l IH]; intros Hv; [reflexivity|].
  rewrite filter_cons. apply not_elem_of_cons in Hv as [Hne Hl].
  destruct (decide (x = v)); [congruence | auto].
Qed.

Lemma NoDup_filter_eq_length (v : string) (l : list string) :
  NoDup l -> (length (filter (fun x => x = v) l) <= 1)%nat.
Proof.
  induction 1 as [|x l Hx Hnd IH]; simpl; [lia|].
  rewrite filter_cons. destruct (decide (x = v)) as [->|Hne]; [|exact IH].
  simpl. rewrite filter_eq_absent by exact Hx. simpl. lia.
Qed.

Lemma wf_loads (v : string) (r : t) : wf r -> (loads v r <= 1)%nat.
Proof. intros Hwf. apply NoDup_filter_eq_length, (wf_nodup r Hwf). Qed.

Lemma loads_app (v : string) (l1 l2 : list string) :
  length (filter (fun x => x = v) (l1 ++ l2)) =
  (length (filter (fun x => x = v) l1) +
   length (filter (fun x => x = v) l2))%nat.
Proof. now rewrite filter_app, length_app. Qed.

(** What [ensureLoaded_now] leaves behind, by the state of the slot. *)
Lemma ensureLoaded_now_slot (src : gmap string Artifact) (v : string) (r : t) :
  slots (ensureLoaded_now src v r) !! v =
  Some (Loaded (match slots r !! v with
                | Some (Loaded res) => res
                | _ => src !! v
                end)).
Proof.
  unfold ensureLoaded_now, ensureLoaded.
  destruct (slots r !! v) as [[ws|res]|] eqn:Hv; simpl.
  - rewrite lookup_insert_eq. unfold complete. simpl.
    rewrite lookup_insert_eq. simpl. apply lookup_insert_eq.
  - rewrite Hv. exact Hv.
  - rewrite lookup_insert_eq. unfold complete. simpl.
    rewrite lookup_insert_eq. simpl. apply lookup_insert_eq.
Qed.

Lemma ensureLoaded_now_started (src : gmap string Artifact) (v : string)
    (r : t) :
  started (ensureLoaded_now src v r) =
  match slots r !! v with
  | None => started r ++ [v]
  | Some _ => started r
  end.
Proof.
  unfold ensureLoaded_now, ensureLoaded.
  destruct (slots r !! v) as [[ws|res]|] eqn:Hv; simpl.
  - rewrite lookup_insert_eq. unfold complete. simpl.
    now rewrite lookup_insert_eq.
  - now rewrite Hv.
  - rewrite lookup_insert_eq. unfold complete. simpl.
    now rewrite lookup_insert_eq.
Qed.

Lemma ensureLoaded_now_result (src : gmap string Artifact) (v : string)
    (r : t) :
  result v (ensureLoaded_now src v r) =
  match slots r !! v with
  | Some (Loaded res) => res
  | _ => src !! v
  end.
Proof. unfold result. now rewrite ensureLoaded_now_slot. Qed.

End RegistryFacts.

(** ** The Router *)

#[local] Arguments startsWith : simpl never.
#[local] Arguments substring : simpl never.
#[local] Arguments lastIndexOf : simpl never.

Section RouterFacts.

Import ModuleRegistry Browser Router.

(** [import_] by what the call would settle with. *)
Lemma import_unfold (specifier : string) (w : World) :
  import_ specifier w =
  let w1 := with_registry
              (ensureLoaded_now (network w) specifier (registry w))
              (log (EImport specifier) w) in
  match loadable specifier w with
  | Some a => (Normal a, log (EImportSettled specifier true) w1)
  | None =>
      (Abrupt (LoadError specifier), log (EImportSettled specifier false) w1)
  end.
Proof. unfold import_, loadable. now rewrite ensureLoaded_now_result. Qed.

Lemma ensureLoaded_now_slot_ne (src : gmap string Artifact) (v u : string)
    (r : t) :
  v <> u -> slots (ensureLoaded_now src v r) !! u = slots r !! u.
Proof.
  intros Hne. unfold ensureLoaded_now, ensureLoaded.
  destruct (slots r !! v) as [[ws|res]|] eqn:Hv; simpl.
  - rewrite lookup_insert_eq. unfold complete. simpl.
    rewrite lookup_insert_eq. simpl. now rewrite !lookup_insert_ne.
  - now rewrite Hv.
  - rewrite lookup_insert_eq. unfold complete. simpl.
    rewrite lookup_insert_eq. simpl. now rewrite !lookup_insert_ne.
Qed.

(** An import does not change what later imports settle with. *)
Lemma import_loadable (specifier u : string) (w : World) :
  loadable u (exec (import_ specifier) w) = loadable u w.
Proof.
  unfold exec. rewrite import_unfold.
  assert (H : slots (ensureLoaded_now (network w) specifier (registry w)) !! u
              = match slots (registry w) !! u with
                | Some (Loaded res) => Some (Loaded res)
                | other => if decide (specifier = u)
                           then Some (Loaded (network w !! u)) else other
                end).
  { destruct (decide (specifier = u)) as [->|Hne].
    - rewrite ensureLoaded_now_slot.
      now destruct (slots (registry w) !! u) as [[ws|res]|].
    - rewrite ensureLoaded_now_slot_ne by exact Hne.
      now destruct (slots (registry w) !! u) as [[ws|res]|]. }
  cbv zeta.
  assert (Hgoal :
    match slots (ensureLoaded_now (network w) specifier (registry w)) !! u
    with
    | Some (Loaded res) => res
    | _ => network w !! u
    end = loadable u w).
  { rewrite H. unfold loadable.
    destruct (slots (registry w) !! u) as [[ws|res]|];
      try reflexivity; destruct (decide (specifier = u)); reflexivity. }
  destruct (loadable specifier w); exact Hgoal.
Qed.

(** The completion of the [switch], by route and by what the imports
    settle with. *)
Lemma selectPage_fst (route : string) (w : World) :
  fst (selectPage route w) =
  if String.eqb route "/" then Normal (Some (element_of MenuView None))
  else if String.eqb route "/order" then
    match loadable OrderPage_js w with
    | Some _ => Normal (Some (element_of OrderView None))
    | None => Abrupt (LoadError OrderPage_js)
    end
  else if startsWith route "/product-" then
    match loadable DetailsPage_js w with
    | Some _ =>
        Normal (Some (element_of DetailsView
                        (Some (substring route (lastIndexOf route "-" + 1)))))
    | None => Abrupt (LoadError DetailsPage_js)
    end
  else Normal None.
Proof.
  unfold selectPage.
  destruct (String.eqb route "/"); [reflexivity|].
  destruct (String.eqb route "/order").
  - unfold bind. rewrite import_unfold. cbv zeta.
    destruct (loadable OrderPage_js w); reflexivity.
  - destruct (startsWith route "/product-"); [|reflexivity].
    unfold bind, setMetadata, bind. simpl. rewrite import_unfold. cbv zeta.
    change (loadable DetailsPage_js _) with (loadable DetailsPage_js w).
    destruct (loadable DetailsPage_js w); reflexivity.
Qed.

(** The [switch] leaves unchanged what later imports settle with. *)
Lemma selectPage_loadable (route u : string) (w : World) :
  loadable u (exec (selectPage route) w) = loadable u w.
Proof.
  unfold exec, selectPage.
  destruct (String.eqb route "/"); [reflexivity|].
  destruct (String.eqb route "/order").
  - unfold bind. pose proof (import_loadable OrderPage_js u w) as H.
    unfold exec in H. destruct (import_ OrderPage_js w) as [[a|e] w'];
      exact H.
  - destruct (startsWith route "/product-"); [|reflexivity].
    unfold bind, setMetadata, bind. simpl.
    match goal with
    | |- context [import_ DetailsPage_js ?w1] =>
        pose proof (import_loadable DetailsPage_js u w1) as H;
        unfold exec in H; destruct (import_ DetailsPage_js w1) as [[a|e] w'];
        exact H
    end.
Qed.

Lemma startsWith_product_occurs (route : string) :
  startsWith route "/product-" = true -> occurs "-" route = true.
Proof.
  intros H. apply startsWith_split in H as [t ->].
  rewrite occurs_app. reflexivity.
Qed.

Lemma changePage_mainChildren (el : Element) (w : World) :
  mainChildren (exec (changePage el) w) = swapped el (mainChildren w).
Proof.
  unfold exec, changePage, firstElementChild, swapped.
  destruct (mainChildren w) as [|x l] eqn:E; simpl; now rewrite ?E.
Qed.

Lemma changePage_scroll (el : Element) (w : World) :
  scrollLeft (exec (changePage el) w) = scrollLeft w /\
  ownScrollX (exec (changePage el) w) = ownScrollX w.
Proof.
  unfold exec, changePage, firstElementChild.
  now destruct (mainChildren w).
Qed.

Lemma changePage_normal (el : Element) (w : World) :
  fst (changePage el w) = Normal tt.
Proof.
  unfold changePage, firstElementChild. now destruct (mainChildren w).
Qed.

Lemma fold_changePage_mainChildren (els : list Element) (w : World) :
  mainChildren (fold_left (fun w' el => exec (changePage el) w') els w) =
  fold_left (fun l el => swapped el l) els (mainChildren w).
Proof.
  revert w. induction els as [|el els IH]; intros w; simpl; [reflexivity|].
  now rewrite IH, changePage_mainChildren.
Qed.

Lemma fold_changePage_scroll (els : list Element) (w : World) :
  scrollLeft (fold_left (fun w' el => exec (changePage el) w') els w) =
    scrollLeft w /\
  ownScrollX (fold_left (fun w' el => exec (changePage el) w') els w) =
    ownScrollX w.
Proof.
  revert w. induction els as [|el els IH]; intros w; simpl; [now split|].
  destruct (IH (exec (changePage el) w)) as [-> ->].
  apply changePage_scroll.
Qed.

(** The children of [<main>] once the pending callbacks ran depend on the
    children and on the callbacks alone. *)
Lemma runSwaps_mainChildren (w : World) :
  mainChildren (runSwaps w) =
  fold_left (fun l el => swapped el l) (pendingSwaps w) (mainChildren w).
Proof. unfold runSwaps. now rewrite fold_changePage_mainChildren. Qed.

Lemma runSwaps_scroll (w : World) :
  scrollLeft (runSwaps w) = scrollLeft w /\
  ownScrollX (runSwaps w) = ownScrollX w.
Proof. unfold runSwaps. apply (fold_changePage_scroll _ (with_pendingSwaps [] w)). Qed.

(** The routes that the [switch] knows are absolute paths, which the
    platform never refuses. *)
Lemma routed_accepted (route : string) (w : World) :
  String.eqb route "/" || String.eqb route "/order"
  || startsWith route "/product-" = true ->
  accepts w route = true.
Proof.
  intros H. unfold accepts.
  assert (Hp : path_absolute route = true); [|now rewrite Hp].
  destruct (String.eqb route "/") eqn:E1.
  { apply String.eqb_eq in E1. now subst route. }
  destruct (String.eqb route "/order") eqn:E2.
  { apply String.eqb_eq in E2. now subst route. }
  simpl in H. apply startsWith_split in H as [t ->]. reflexivity.
Qed.

Lemma refused_unroutable (route : string) (addToHistory : bool) (w : World) :
  refused route addToHistory w = true ->
  addToHistory = true /\ accepts w route = false /\
  forall w' : World, selectPage route w' = (Normal None, w').
Proof.
  unfold refused. intros H. apply andb_prop in H as [-> Hacc].
  apply negb_true_iff in Hacc. split; [reflexivity|]. split; [exact Hacc|].
  intros w'. unfold selectPage.
  destruct (String.eqb route "/") eqn:E1.
  { rewrite (routed_accepted route w) in Hacc; [discriminate|now rewrite E1]. }
  destruct (String.eqb route "/order") eqn:E2.
  { rewrite (routed_accepted route w) in Hacc; [discriminate|].
    now rewrite E1, E2. }
  destruct (startsWith route "/product-") eqn:E3; [|reflexivity].
  rewrite (routed_accepted route w) in Hacc; [discriminate|].
  now rewrite E1, E2, E3.
Qed.

(** The world after the push of [Router.go], if it asks for one. *)
Lemma pushed_frame (route : string) (addToHistory : bool) (w : World) :
  let w1 := if addToHistory
            then pushed {| Browser.route := Some route |} (Some route) w
            else w in
  listening w1 = listening w /\ title w1 = title w /\
  themeColor w1 = themeColor w /\ mainChildren w1 = mainChildren w /\
  viewTransitions w1 = viewTransitions w /\
  pendingSwaps w1 = pendingSwaps w /\ registry w1 = registry w /\
  network w1 = network w /\ site w1 = site w /\
  scrollLeft w1 = scrollLeft w /\ ownScrollX w1 = ownScrollX w.
Proof. destruct addToHistory; simpl; repeat split. Qed.

(** [Router.go] in three steps: the history push, which the platform may
    refuse, the [switch], and, when the [switch] ended normally, the swap
    and the assignment to [window.scrollX]. *)
Lemma go_unfold (route : string) (addToHistory : bool) (w : World) :
  go route addToHistory w =
  if refused route addToHistory w then (Abrupt SecurityError, w)
  else
    let w1 := if addToHistory
              then pushed {| Browser.route := Some route |} (Some route) w
              else w in
    match selectPage route w1 with
    | (Normal page, w2) =>
        (Normal tt, exec (set_scrollX 0) (exec (swapPage page) w2))
    | (Abrupt e, w2) => (Abrupt e, w2)
    end.
Proof.
  unfold go, bind, exec, refused, pushState. destruct addToHistory; simpl.
  - destruct (accepts w route); simpl; [|reflexivity].
    destruct (selectPage route _) as [[page|e] w2]; [|reflexivity].
    unfold swapPage. destruct page as [el|]; [|reflexivity].
    destruct (viewTransitions w2); [reflexivity|].
    pose proof (changePage_normal el w2) as H.
    destruct (changePage el w2) as [[[]|e] w3]; [reflexivity|discriminate].
  - destruct (selectPage route w) as [[page|e] w2]; [|reflexivity].
    unfold swapPage. destruct page as [el|]; [|reflexivity].
    destruct (viewTransitions w2); [reflexivity|].
    pose proof (changePage_normal el w2) as H.
    destruct (changePage el w2) as [[[]|e] w3]; [reflexivity|discriminate].
Qed.

(** What the [switch] leaves alone. *)
Lemma selectPage_frame (route : string) (w : World) :
  let w' := exec (selectPage route) w in
  entries w' = entries w /\ current w' = current w /\
  listening w' = listening w /\ mainChildren w' = mainChildren w /\
  viewTransitions w' = viewTransitions w /\
  pendingSwaps w' = pendingSwaps w /\ network w' = network w /\
  site w' = site w /\ scrollLeft w' = scrollLeft w /\
  ownScrollX w' = ownScrollX w.
Proof.
  unfold exec, selectPage.
  destruct (String.eqb route "/"); [simpl; tauto|].
  destruct (String.eqb route "/order").
  - unfold bind. rewrite import_unfold. cbv zeta.
    destruct (loadable OrderPage_js w); simpl; tauto.
  - destruct (startsWith route "/product-"); [|simpl; tauto].
    unfold bind, setMetadata, bind. simpl. rewrite import_unfold. cbv zeta.
    match goal with |- context [loadable DetailsPage_js ?w1] =>
      destruct (loadable DetailsPage_js w1) end; simpl; tauto.
Qed.

(** The effects of the [switch]: never a history push, and nothing that
    creates or mounts an element when an import rejects. *)
Lemma selectPage_trace (route : string) (w : World) :
  exists evs : list Effect,
    trace (exec (selectPage route) w) = trace w ++ evs /\
    forallb (fun e => negb (is_push e)) evs = true /\
    (forall e, fst (selectPage route w) = Abrupt e ->
               forallb (fun e => negb (is_mount e)) evs = true).
Proof.
  unfold exec, selectPage.
  destruct (String.eqb route "/").
  { simpl. rewrite <- !app_assoc. eexists. split; [reflexivity|].
    split; [reflexivity | discriminate]. }
  destruct (String.eqb route "/order").
  { unfold bind. rewrite import_unfold. cbv zeta.
    destruct (loadable OrderPage_js w); simpl; rewrite <- !app_assoc;
      eexists; (split; [reflexivity|]); split;
      try reflexivity; try discriminate; intros; reflexivity. }
  destruct (startsWith route "/product-").
  { unfold bind, setMetadata, bind. simpl. rewrite import_unfold. cbv zeta.
    match goal with |- context [loadable DetailsPage_js ?w1] =>
      destruct (loadable DetailsPage_js w1) end; simpl;
      rewrite <- !app_assoc;
      eexists; (split; [reflexivity|]); split;
      try reflexivity; try discriminate; intros; reflexivity. }
  exists []. simpl. rewrite app_nil_r. repeat split; discriminate.
Qed.

(** A route that matches no case ends the [switch] at once. *)
Lemma selectPage_unroutable (route : string) (w : World) :
  route <> "/" -> route <> "/order" ->
  startsWith route "/product-" = false ->
  selectPage route w = (Normal None, w).
Proof.
  intros H1 H2 H3. unfold selectPage.
  apply String.eqb_neq in H1, H2. now rewrite H1, H2, H3.
Qed.

Lemma swapPage_frame (page : option Element) (w : World) :
  let w' := exec (swapPage page) w in
  entries w' = entries w /\ current w' = current w /\
  registry w' = registry w /\ scrollLeft w' = scrollLeft w /\
  ownScrollX w' = ownScrollX w.
Proof.
  unfold exec, swapPage. destruct page as [el|]; [|simpl; tauto].
  destruct (viewTransitions w); [simpl; tauto|].
  unfold changePage, firstElementChild.
  destruct (mainChildren w); simpl; tauto.
Qed.

Lemma swapPage_trace (page : option Element) (w : World) :
  exists evs : list Effect,
    trace (exec (swapPage page) w) = trace w ++ evs /\
    forallb (fun e => negb (is_push e)) evs = true.
Proof.
  unfold exec, swapPage. destruct page as [el|].
  - destruct (viewTransitions w).
    + eexists. split; reflexivity.
    + unfold changePage, firstElementChild.
      destruct (mainChildren w); simpl; rewrite <- ?app_assoc;
        eexists; split; reflexivity.
  - exists []. simpl. now rewrite app_nil_r.
Qed.

Lemma go_refused (route : string) (addToHistory : bool) (w : World) :
  refused route addToHistory w = true ->
  go route addToHistory w = (Abrupt SecurityError, w).
Proof. intros H. now rewrite go_unfold, H. Qed.

(** The world [Router.go] leaves when its push is not refused, by the
    outcome of the [switch]. *)
Lemma go_exec (route : string) (addToHistory : bool) (w : World) :
  refused route addToHistory w = false ->
  exec (go route addToHistory) w =
  let w1 := if addToHistory
            then pushed {| Browser.route := Some route |} (Some route) w
            else w in
  match fst (selectPage route w1) with
  | Normal page =>
      exec (set_scrollX 0) (exec (swapPage page) (exec (selectPage route) w1))
  | Abrupt _ => exec (selectPage route) w1
  end.
Proof.
  intros Href. unfold exec at 1. rewrite go_unfold, Href. cbv zeta.
  set (w1 := if addToHistory then _ else w).
  unfold exec. now destruct (selectPage route w1) as [[page|e] w2].
Qed.

Lemma go_fst (route : string) (addToHistory : bool) (w : World) :
  fst (go route addToHistory w) =
  if refused route addToHistory w then Abrupt SecurityError
  else match fst (selectPage route w) with
       | Normal _ => Normal tt
       | Abrupt e => Abrupt e
       end.
Proof.
  rewrite go_unfold. destruct (refused route addToHistory w); [reflexivity|].
  cbv zeta. rewrite (selectPage_fst route w).
  destruct addToHistory;
  match goal with |- context [selectPage route ?w1] =>
    pose proof (selectPage_fst route w1) as H;
    change (loadable OrderPage_js w1) with (loadable OrderPage_js w) in H;
    change (loadable DetailsPage_js w1) with (loadable DetailsPage_js w) in H;
    destruct (selectPage route w1) as [[page|e] w2]
  end; cbn [fst] in H; rewrite <- H; reflexivity.
Qed.

(** A refused route is none of the [switch]'s. *)
Lemma refused_fst (route : string) (addToHistory : bool) (w : World) :
  refused route addToHistory w = true ->
  fst (selectPage route w) = Normal None.
Proof.
  intros H. destruct (refused_unroutable route addToHistory w H) as (_ & _ & Hs).
  now rewrite Hs.
Qed.

(** The effects of [Router.go]: the history push, if asked for and accepted,
    comes first and is the only one; a rejected navigation creates and
    mounts nothing. *)
Lemma go_trace (route : string) (addToHistory : bool) (w : World) :
  exists evs : list Effect,
    trace (exec (go route addToHistory) w) =
      trace w ++
      (if addToHistory && accepts w route then [EPushState route] else []) ++
      evs /\
    forallb (fun e => negb (is_push e)) evs = true /\
    (forall e, fst (go route addToHistory w) = Abrupt e ->
               forallb (fun e => negb (is_mount e)) evs = true).
Proof.
  destruct (refused route addToHistory w) eqn:Href.
  { destruct (refused_unroutable route addToHistory w Href) as (-> & Hacc & _).
    unfold exec. rewrite go_refused by exact Href. rewrite Hacc. simpl.
    exists []. now rewrite app_nil_r. }
  assert (Hb : addToHistory && accepts w route = addToHistory).
  { unfold refused in Href. destruct addToHistory; [simpl in *|reflexivity].
    now apply negb_false_iff in Href. }
  rewrite Hb, go_exec, go_fst, Href by exact Href. cbv zeta.
  set (w1 := if addToHistory then _ else w).
  assert (Htr : trace w1 =
                trace w ++ (if addToHistory then [EPushState route] else [])).
  { subst w1. destruct addToHistory; simpl; [reflexivity|].
    now rewrite app_nil_r. }
  assert (Hfst : fst (selectPage route w1) = fst (selectPage route w)).
  { rewrite !selectPage_fst. subst w1. now destruct addToHistory. }
  destruct (selectPage_trace route w1) as (evs & Hevs & Hpush & Hmount).
  rewrite Hfst in *.
  destruct (fst (selectPage route w)) as [page|e] eqn:Hsel.
  - destruct (swapPage_trace page (exec (selectPage route) w1))
      as (evs' & Hevs' & Hpush').
    exists (evs ++ evs' ++ [EScrollX 0]). split; [|split].
    + simpl. rewrite Hevs', Hevs, Htr. now rewrite <- !app_assoc.
    + rewrite !forallb_app, Hpush, Hpush'. reflexivity.
    + discriminate.
  - exists evs. split; [|split].
    + rewrite Hevs, Htr. now rewrite <- !app_assoc.
    + exact Hpush.
    + intros e' _. eapply Hmount. reflexivity.
Qed.

Lemma go_entries (route : string) (addToHistory : bool) (w : World) :
  entries (exec (go route addToHistory) w) =
    (if addToHistory && accepts w route
     then take (S (current w)) (entries w) ++
          [{| state := Some {| Browser.route := Some route |};
              path := pathOf (site w) (pathname w) route |}]
     else entries w) /\
  current (exec (go route addToHistory) w) =
    (if addToHistory && accepts w route
     then length (take (S (current w)) (entries w))
     else current w).
Proof.
  destruct (refused route addToHistory w) eqn:Href.
  { destruct (refused_unroutable route addToHistory w Href) as (-> & Hacc & _).
    unfold exec. rewrite go_refused by exact Href. rewrite Hacc. now split. }
  assert (Hb : addToHistory && accepts w route = addToHistory).
  { unfold refused in Href. destruct addToHistory; [simpl in *|reflexivity].
    now apply negb_false_iff in Href. }
  rewrite Hb, go_exec by exact Href. cbv zeta.
  set (w1 := if addToHistory then _ else w).
  assert (H1 : entries w1 =
               (if addToHistory
                then take (S (current w)) (entries w) ++
                     [{| state := Some {| Browser.route := Some route |};
                         path := pathOf (site w) (pathname w) route |}]
                else entries w) /\
               current w1 =
               (if addToHistory then length (take (S (current w)) (entries w))
                else current w)).
  { subst w1. now destruct addToHistory. }
  destruct H1 as [<- <-].
  pose proof (selectPage_frame route w1) as (He & Hc & _). cbv zeta in *.
  destruct (fst (selectPage route w1)) as [page|e]; [|now split].
  pose proof (swapPage_frame page (exec (selectPage route) w1))
    as (He' & Hc' & _).
  cbv zeta in *. simpl. rewrite He', Hc', He, Hc. now split.
Qed.

Lemma swapPage_slot (page : option Element) (w : World) :
  let w' := exec (swapPage page) w in
  mainChildren w' =
    match page with
    | Some el => if viewTransitions w then mainChildren w
                 else swapped el (mainChildren w)
    | None => mainChildren w
    end /\
  pendingSwaps w' =
    match page with
    | Some el => if viewTransitions w then pendingSwaps w ++ [el]
                 else pendingSwaps w
    | None => pendingSwaps w
    end.
Proof.
  unfold exec, swapPage. destruct page as [el|]; [|now split].
  destruct (viewTransitions w); [now split|].
  unfold changePage, firstElementChild, swapped.
  destruct (mainChildren w) as [|x l] eqn:E; simpl; now rewrite ?E.
Qed.

(** The display slot and the window after [Router.go]: the children of
    [<main>] and the pending callbacks by the outcome of the [switch]; the
    viewport is never scrolled, and the window gets its own [scrollX]
    exactly when the navigation is fulfilled. *)
Lemma go_slot (route : string) (addToHistory : bool) (w : World) :
  let w' := exec (go route addToHistory) w in
  mainChildren w' =
    match fst (selectPage route w) with
    | Normal (Some el) => if viewTransitions w then mainChildren w
                          else swapped el (mainChildren w)
    | _ => mainChildren w
    end /\
  pendingSwaps w' =
    match fst (selectPage route w) with
    | Normal (Some el) => if viewTransitions w then pendingSwaps w ++ [el]
                          else pendingSwaps w
    | _ => pendingSwaps w
    end /\
  scrollLeft w' = scrollLeft w /\
  ownScrollX w' =
    match fst (go route addToHistory w) with
    | Normal _ => Some 0
    | Abrupt _ => ownScrollX w
    end.
Proof.
  cbv zeta. rewrite go_fst.
  destruct (refused route addToHistory w) eqn:Href.
  { rewrite (refused_fst route addToHistory w Href).
    unfold exec. rewrite go_refused by exact Href. repeat split. }
  rewrite go_exec by exact Href. cbv zeta.
  set (w1 := if addToHistory then _ else w).
  assert (Hfst : fst (selectPage route w1) = fst (selectPage route w)).
  { rewrite !selectPage_fst. subst w1. now destruct addToHistory. }
  pose proof (pushed_frame route addToHistory w)
    as (_ & _ & _ & Hm1 & Hv1 & Hp1 & _ & _ & _ & Hs1 & Ho1).
  cbv zeta in Hm1, Hv1, Hp1, Hs1, Ho1.
  fold w1 in Hm1, Hv1, Hp1, Hs1, Ho1.
  pose proof (selectPage_frame route w1)
    as (_ & _ & _ & Hm & Hv & Hp & _ & _ & Hs & Ho).
  cbv zeta in *. rewrite Hfst.
  destruct (fst (selectPage route w)) as [page|e].
  - pose proof (swapPage_slot page (exec (selectPage route) w1)) as [Hm' Hp'].
    pose proof (swapPage_frame page (exec (selectPage route) w1))
      as (_ & _ & _ & Hs' & _).
    cbv zeta in *. simpl.
    rewrite Hm', Hp', Hs', Hm, Hp, Hv, Hs, Hm1, Hp1, Hv1, Hs1.
    destruct page; repeat split.
  - rewrite Hm, Hp, Hs, Ho, Hm1, Hp1, Hs1, Ho1. repeat split.
Qed.

(** A route that matches no case: the registry and the chrome are left
    alone, and the only effects are the push, if asked for and accepted,
    and the assignment to [window.scrollX], which a refused push keeps
    from happening. *)
Lemma go_registry_unroutable (route : string) (addToHistory : bool)
    (w : World) :
  route <> "/" -> route <> "/order" ->
  startsWith route "/product-" = false ->
  registry (exec (go route addToHistory) w) = registry w /\
  title (exec (go route addToHistory) w) = title w /\
  themeColor (exec (go route addToHistory) w) = themeColor w /\
  trace (exec (go route addToHistory) w) =
    trace w ++
    (if refused route addToHistory w then []
     else (if addToHistory then [EPushState route] else []) ++ [EScrollX 0]).
Proof.
  intros H1 H2 H3.
  destruct (refused route addToHistory w) eqn:Href.
  { unfold exec. rewrite go_refused by exact Href. simpl.
    now rewrite app_nil_r. }
  rewrite go_exec by exact Href. cbv zeta.
  rewrite !selectPage_unroutable by assumption. unfold exec.
  rewrite !selectPage_unroutable by assumption.
  destruct addToHistory; simpl; rewrite <- ?app_assoc; repeat split.
Qed.

Lemma startsWith_product_not_static (route : string) :
  startsWith route "/product-" = true ->
  String.eqb route "/" = false /\ String.eqb route "/order" = false.
Proof.
  intros H. apply startsWith_split in H as [t ->]. now split.
Qed.

Lemma runSwaps_pendingSwaps (w : World) : pendingSwaps (runSwaps w) = [].
Proof.
  unfold runSwaps.
  assert (H : forall els w0, pendingSwaps w0 = [] ->
            pendingSwaps
              (fold_left (fun w' el => exec (changePage el) w') els w0) = []).
  { induction els as [|el els IH]; intros w0 H0; simpl; [exact H0|].
    apply IH. unfold exec, changePage, firstElementChild.
    now destruct (mainChildren w0). }
  now apply H.
Qed.

(** The effects of the [switch] on ["/order"]: the import settles before
    the element is created and the chrome set. *)
Lemma selectPage_order_trace (w : World) :
  trace (exec (selectPage "/order") w) =
  trace w ++
  match loadable OrderPage_js w with
  | Some _ =>
      [EImport OrderPage_js; EImportSettled OrderPage_js true;
       ECreateElement "order-page"; ETitle "Your Order - Coffee Shop";
       EThemeColor "#f60"]
  | None => [EImport OrderPage_js; EImportSettled OrderPage_js false]
  end.
Proof.
  unfold exec, selectPage. simpl. unfold bind. rewrite import_unfold.
  cbv zeta. destruct (loadable OrderPage_js w); simpl;
    now rewrite <- !app_assoc.
Qed.

(** The effects of the [switch] on a product route: the chrome is set
    before the import is even called. *)
Lemma selectPage_details_trace (route : string) (w : World) :
  startsWith route "/product-" = true ->
  trace (exec (selectPage route) w) =
  trace w ++
  [ETitle "Product Details - Coffee Shop"; EThemeColor "#f0f";
   EImport DetailsPage_js] ++
  match loadable DetailsPage_js w with
  | Some _ =>
      [EImportSettled DetailsPage_js true; ECreateElement "details-page"]
  | None => [EImportSettled DetailsPage_js false]
  end.
Proof.
  intros Hp. destruct (startsWith_product_not_static route Hp) as [E1 E2].
  unfold exec, selectPage. rewrite E1, E2, Hp.
  unfold bind, setMetadata, bind. simpl. rewrite import_unfold. cbv zeta.
  match goal with |- context [loadable DetailsPage_js ?w1] =>
    change (loadable DetailsPage_js w1) with (loadable DetailsPage_js w) end.
  destruct (loadable DetailsPage_js w); simpl; now rewrite <- !app_assoc.
Qed.

(** The chrome a product route leaves, whether or not its module loads. *)
Lemma selectPage_details_chrome (route : string) (w : World) :
  startsWith route "/product-" = true ->
  title (exec (selectPage route) w) = "Product Details - Coffee Shop" /\
  themeColor (exec (selectPage route) w) = "#f0f".
Proof.
  intros Hp. destruct (startsWith_product_not_static route Hp) as [E1 E2].
  unfold exec, selectPage. rewrite E1, E2, Hp.
  unfold bind, setMetadata, bind. simpl. rewrite import_unfold. cbv zeta.
  match goal with |- context [loadable DetailsPage_js ?w1] =>
    destruct (loadable DetailsPage_js w1) end; now split.
Qed.

(** The registry after a navigation to ["/order"]. *)
Lemma go_order_registry (addToHistory : bool) (w : World) :
  let w' := exec (go "/order" addToHistory) w in
  registry w' = ensureLoaded_now (network w) OrderPage_js (registry w) /\
  network w' = network w.
Proof.
  assert (Href : refused "/order" addToHistory w = false).
  { unfold refused. rewrite (routed_accepted "/order" w) by reflexivity.
    now destruct addToHistory. }
  cbv zeta. rewrite go_exec by exact Href. cbv zeta.
  set (w1 := if addToHistory then _ else w).
  assert (Hw1 : registry w1 = registry w /\ network w1 = network w).
  { subst w1. now destruct addToHistory. }
  destruct Hw1 as [Hr Hn].
  assert (Hsel : registry (exec (selectPage "/order") w1) =
                 ensureLoaded_now (network w1) OrderPage_js (registry w1)
                 /\ network (exec (selectPage "/order") w1) = network w1).
  { unfold exec, selectPage. simpl. unfold bind. rewrite import_unfold.
    cbv zeta. destruct (loadable OrderPage_js w1); now split. }
  destruct Hsel as [Hr' Hn']. rewrite Hr, Hn in Hr'. rewrite Hn in Hn'.
  destruct (fst (selectPage "/order" w1)) as [page|e]; [|now split].
  pose proof (swapPage_frame page (exec (selectPage "/order") w1))
    as (_ & _ & Hr2 & _).
  cbv zeta in Hr2. split.
  - simpl. now rewrite Hr2.
  - simpl. unfold exec, swapPage. destruct page as [el|]; [|exact Hn'].
    destruct (viewTransitions _); [exact Hn'|].
    unfold changePage, firstElementChild.
    destruct (mainChildren _); exact Hn'.
Qed.

(** A routed path is never refused. *)
Lemma routed_not_refused (route : string) (addToHistory : bool) (w : World) :
  String.eqb route "/" || String.eqb route "/order"
  || startsWith route "/product-" = true ->
  refused route addToHistory w = false /\
  addToHistory && accepts w route = addToHistory.
Proof.
  intros H. unfold refused. rewrite (routed_accepted route w H).
  now destruct addToHistory.
Qed.

(** A replayed navigation, whatever its route, pushes nothing. *)
Lemma replay_pushes_nothing (r : option string) (w : World) :
  entries (exec (go_value r false) w) = entries w /\
  current (exec (go_value r false) w) = current w /\
  exists evs : list Effect,
    trace (exec (go_value r false) w) = trace w ++ evs /\
    forallb (fun e => negb (is_push e)) evs = true.
Proof.
  destruct r as [r|]; simpl.
  - destruct (go_entries r false w) as [He Hc].
    split; [exact He|]. split; [exact Hc|].
    destruct (go_trace r false w) as (evs & Ht & Hp & _).
    exists evs. now split.
  - split; [reflexivity|]. split; [reflexivity|].
    exists []. simpl. now rewrite app_nil_r.
Qed.

End RouterFacts.

(** ** The store *)

Section StoreFacts.

Context {Value : Type}.

Lemma get_set (f : Store.Field) (v : Value) (a : Store.AppState Value) :
  Store.get f (Store.set f v a) = v.
Proof. now destruct f. Qed.

Lemma handlers_subscribe (k : Store.Kind) (h : Store.Handler Value)
    (s : Store.t Value) :
  Store.handlers k (Store.subscribe k h s) = Store.handlers k s ++ [h].
Proof. now destruct k. Qed.

Lemma handlers_fold_subscribe (k : Store.Kind)
    (hs : list (Store.Handler Value)) (s : Store.t Value) :
  Store.handlers k (fold_left (fun s h => Store.subscribe k h s) hs s) =
  Store.handlers k s ++ hs.
Proof.
  revert s. induction hs as [|h hs IH]; intros s; simpl.
  - now rewrite app_nil_r.
  - rewrite IH, handlers_subscribe. now rewrite <- app_assoc.
Qed.

End StoreFacts.

(** * The claims *)

Section Claims.

Import ModuleRegistry Browser Router.

(** C1. Route resolution is a function of the path alone.  Every path has
    one resolution, a view with its parameter or no view, which decides how
    the [switch] of [Router.go] ends in every world, hence also when the
    resolution is repeated: with the view's page element, or with the
    rejected import when the view's module cannot be loaded.  The
    resolution is the menu view for ["/"], the order view for ["/order"],
    for a path beginning with ["/product-"] the details view whose
    parameter is what follows the last ['-'] of the path, and no view for
    every other path.  Resolving a path again in the world the first
    resolution left ends in the same way.  ["/product-42"] yields ["42"]
    and ["/product-abc"] yields ["abc"]. *)
Theorem route_resolution :
  (forall route : string,
      exists r : option (View * option string),
        (forall w : World, fst (selectPage route w) = outcome_of r w) /\
        (route = "/" -> r = Some (MenuView, None)) /\
        (route = "/order" -> r = Some (OrderView, None)) /\
        (startsWith route "/product-" = true ->
         exists pre param : string,
           route = pre +:+ String "-" param /\
           occurs "-" param = false /\
           r = Some (DetailsView, Some param)) /\
        (route <> "/" -> route <> "/order" ->
         startsWith route "/product-" = false -> r = None)) /\
  (forall (route : string) (w : World),
      fst (selectPage route (exec (selectPage route) w)) =
      fst (selectPage route w)) /\
  (forall w : World,
      fst (selectPage "/product-42" w) =
      outcome_of (Some (DetailsView, Some "42")) w) /\
  (forall w : World,
      fst (selectPage "/product-abc" w) =
      outcome_of (Some (DetailsView, Some "abc")) w).
Proof.
  split; [|split; [|split; intros w; now rewrite selectPage_fst]].
  2:{ intros route w. now rewrite !selectPage_fst, !selectPage_loadable. }
  intros route.
  destruct (String.eqb route "/") eqn:E1.
  { exists (Some (MenuView, None)).
    split; [intros w; now rewrite selectPage_fst, E1|].
    apply String.eqb_eq in E1. subst route.
    repeat split; try reflexivity; try discriminate; congruence. }
  destruct (String.eqb route "/order") eqn:E2.
  { exists (Some (OrderView, None)).
    split; [intros w; now rewrite selectPage_fst, E1, E2|].
    apply String.eqb_eq in E2. subst route.
    repeat split; try reflexivity; try discriminate; congruence. }
  destruct (startsWith route "/product-") eqn:E3.
  { exists (Some (DetailsView,
                  Some (substring route (lastIndexOf route "-" + 1)))).
    split; [intros w; now rewrite selectPage_fst, E1, E2, E3|].
    apply String.eqb_neq in E1, E2.
    repeat split; try congruence.
    intros _. destruct (substring_after_last "-" route) as (pre & Hr & Hp).
    { now apply startsWith_product_occurs. }
    exists pre, (substring route (lastIndexOf route "-" + 1)).
    repeat split; assumption. }
  exists None.
  split; [intros w; now rewrite selectPage_fst, E1, E2, E3|].
  apply String.eqb_neq in E1, E2. repeat split; congruence.
Qed.

(** C3, as the code has it.  For every path that is not ["/"], not
    ["/order"] and does not begin with ["/product-"], [Router.go] is a no-op
    on the display slot: the children of [<main>] and the pending transition
    callbacks are as before, so that what is mounted once the callbacks ran
    is as before too, and the registry saw no call.  The promise is
    fulfilled, the only effects being the history push, if asked for, and
    the assignment to [window.scrollX], unless a push was asked for and the
    platform refuses the path as a URL: then the promise is rejected with
    the [SecurityError] of [history.pushState] and nothing has happened. *)
Theorem unroutable_is_noop (route : string) (addToHistory : bool)
    (w : World) :
  route <> "/" -> route <> "/order" ->
  startsWith route "/product-" = false ->
  let w' := exec (go route addToHistory) w in
  fst (go route addToHistory w) =
    (if refused route addToHistory w then Abrupt SecurityError
     else Normal tt) /\
  mainChildren w' = mainChildren w /\
  pendingSwaps w' = pendingSwaps w /\
  mainChildren (runSwaps w') = mainChildren (runSwaps w) /\
  registry w' = registry w /\
  trace w' =
    trace w ++
    (if refused route addToHistory w then []
     else (if addToHistory then [EPushState route] else []) ++ [EScrollX 0]).
Proof.
  intros H1 H2 H3 w'.
  pose proof (go_slot route addToHistory w) as (Hm & Hp & _).
  pose proof (go_registry_unroutable route addToHistory w H1 H2 H3)
    as (Hr & _ & _ & Ht).
  cbv zeta in *. fold w' in Hm, Hp, Hr, Ht.
  rewrite selectPage_unroutable in Hm, Hp by assumption. simpl in Hm, Hp.
  split.
  { rewrite go_fst, selectPage_unroutable by assumption. reflexivity. }
  repeat split; try assumption.
  rewrite !runSwaps_mainChildren. now rewrite Hm, Hp.
Qed.

Lemma unroutable_is_noop_witness :
  "/unknown" <> "/" /\ "/unknown" <> "/order" /\
  startsWith "/unknown" "/product-" = false /\
  fst (go "/unknown" true home) =
    (if refused "/unknown" true home then Abrupt SecurityError
     else Normal tt) /\
  mainChildren (exec (go "/unknown" true) home) = mainChildren home.
Proof.
  assert (H1 : "/unknown" <> "/") by discriminate.
  assert (H2 : "/unknown" <> "/order") by discriminate.
  assert (H3 : startsWith "/unknown" "/product-" = false) by reflexivity.
  pose proof (unroutable_is_noop "/unknown" true home H1 H2 H3) as H.
  cbv zeta in H. destruct H as (Hf & Hm & _).
  split; [exact H1|]. split; [exact H2|]. split; [exact H3|].
  split; [exact Hf | exact Hm].
Defined.

(** C3 as the claim states it fails: ["//example.com/x"] matches no case,
    yet navigating to it from the application at ["/"] raises an error, the
    [SecurityError] with which [history.pushState] refuses a URL of another
    origin. *)
Lemma unroutable_raises_when_push_refused :
  "//example.com/x" <> "/" /\ "//example.com/x" <> "/order" /\
  startsWith "//example.com/x" "/product-" = false /\
  fst (go "//example.com/x" true home) = Abrupt SecurityError.
Proof.
  split; [discriminate|]. split; [discriminate|]. split; [reflexivity|].
  vm_compute. reflexivity.
Qed.

(** C4, as the code has it.  [Router.go] calls [history.pushState] exactly
    when [addToHistory] holds, before anything else, and the entry
    [{ route }] is pushed exactly when moreover the platform accepts the
    route as a URL: then the entries after the current one are replaced by
    the new entry, which becomes current, whatever the outcome of the
    [switch], the import and the swap, the push being the first effect and
    the only push; when the platform refuses the route the promise is
    rejected with its [SecurityError] and nothing has happened.  Without
    [addToHistory] the session history is as before.  The popstate listener
    calls [Router.go] with the recorded route and [false], so the replay does
    what that call does and pushes nothing; a back or forward traversal
    leaves the entries as they are. *)
Theorem history_push (route : string) (addToHistory : bool) (w : World) :
  let w' := exec (go route addToHistory) w in
  entries w' =
    (if addToHistory && accepts w route
     then take (S (current w)) (entries w) ++
          [{| state := Some {| Browser.route := Some route |};
              path := pathOf (site w) (pathname w) route |}]
     else entries w) /\
  current w' =
    (if addToHistory && accepts w route
     then length (take (S (current w)) (entries w))
     else current w) /\
  (exists evs : list Effect,
      trace w' =
        trace w ++
        (if addToHistory && accepts w route then [EPushState route] else [])
        ++ evs /\
      forallb (fun e => negb (is_push e)) evs = true) /\
  (refused route addToHistory w = true ->
   go route addToHistory w = (Abrupt SecurityError, w)) /\
  (forall s : NavigationEntry,
      onPopState (Some s) w =
      (Normal tt, exec (go_value (Browser.route s) false) w)) /\
  (forall st : option NavigationEntry,
      entries (exec (onPopState st) w) = entries w /\
      exists evs : list Effect,
        trace (exec (onPopState st) w) = trace w ++ evs /\
        forallb (fun e => negb (is_push e)) evs = true) /\
  (forall delta : Z, entries (exec (traverse delta) w) = entries w).
Proof.
  cbv zeta. pose proof (go_entries route addToHistory w) as [He Hc].
  split; [exact He|]. split; [exact Hc|].
  split; [|split; [apply go_refused|split; [reflexivity|split]]].
  - destruct (go_trace route addToHistory w) as (evs & Ht & Hp & _).
    exists evs. now split.
  - intros [[r]|].
    + change (exec (onPopState (Some {| Browser.route := r |})) w)
        with (exec (go_value r false) w).
      destruct (replay_pushes_nothing r w) as (He' & _ & Ht').
      now split.
    + split; [reflexivity|]. exists []. simpl. now rewrite app_nil_r.
  - intros delta. unfold exec, traverse.
    destruct (_ || _); [reflexivity|].
    destruct (entries w !! _) as [it|]; [|reflexivity].
    destruct (listening w); [|reflexivity].
    destruct (state it) as [[r]|]; [|reflexivity].
    apply (replay_pushes_nothing r (with_history (entries w) _ w)).
Qed.

(** C4 as the claim states it fails: a navigation asked to add to the
    history, to ["//example.com/x"] from the application at ["/"], pushes no
    entry, [history.pushState] refusing the URL. *)
Lemma history_push_refused_pushes_nothing :
  fst (go "//example.com/x" true home) = Abrupt SecurityError /\
  entries (exec (go "//example.com/x" true) home) = entries home.
Proof. vm_compute. split; reflexivity. Qed.

(** C5. When the module that a route needs cannot be loaded, the promise
    of [Router.go] is rejected with the load's error, which the Router does
    not catch; no element is created, nothing is mounted or queued for a
    transition, and the children of [<main>] stay as they were, also once
    the pending transition callbacks have run. *)
Theorem load_failure_keeps_view (route specifier : string)
    (addToHistory : bool) (w : World) :
  (route = "/order" /\ specifier = OrderPage_js) \/
  (startsWith route "/product-" = true /\ specifier = DetailsPage_js) ->
  loadable specifier w = None ->
  let w' := exec (go route addToHistory) w in
  fst (go route addToHistory w) = Abrupt (LoadError specifier) /\
  mainChildren w' = mainChildren w /\
  pendingSwaps w' = pendingSwaps w /\
  mainChildren (runSwaps w') = mainChildren (runSwaps w) /\
  (exists evs : list Effect,
      trace w' =
        trace w ++ (if addToHistory then [EPushState route] else []) ++ evs /\
      forallb (fun e => negb (is_mount e)) evs = true).
Proof.
  intros Hroute Hload w'.
  assert (Hsel : fst (selectPage route w) = Abrupt (LoadError specifier)).
  { rewrite selectPage_fst.
    destruct Hroute as [[-> ->] | [Hp ->]].
    - simpl. now rewrite Hload.
    - destruct (startsWith_product_not_static route Hp) as [-> ->].
      now rewrite Hp, Hload. }
  assert (Hrouted : String.eqb route "/" || String.eqb route "/order"
                    || startsWith route "/product-" = true).
  { destruct Hroute as [[-> _] | [Hp _]]; [reflexivity|].
    rewrite Hp. now rewrite !orb_true_r. }
  destruct (routed_not_refused route addToHistory w Hrouted) as [Href Hacc].
  assert (Hfst : fst (go route addToHistory w) = Abrupt (LoadError specifier)).
  { rewrite go_fst, Href. now rewrite Hsel. }
  pose proof (go_slot route addToHistory w) as (Hm & Hp & _).
  cbv zeta in Hm, Hp. fold w' in Hm, Hp. rewrite Hsel in Hm, Hp.
  split; [exact Hfst|]. split; [exact Hm|]. split; [exact Hp|]. split.
  - rewrite !runSwaps_mainChildren. now rewrite Hm, Hp.
  - destruct (go_trace route addToHistory w) as (evs & Ht & _ & Hmount).
    rewrite Hacc in Ht.
    exists evs. split; [exact Ht|]. eapply Hmount. exact Hfst.
Qed.

Lemma load_failure_keeps_view_witness :
  (("/order" = "/order" /\ OrderPage_js = OrderPage_js) \/
   (startsWith "/order" "/product-" = true /\
    OrderPage_js = DetailsPage_js)) /\
  loadable OrderPage_js offline = None /\
  fst (go "/order" true offline) = Abrupt (LoadError OrderPage_js) /\
  mainChildren (exec (go "/order" true) offline) = mainChildren offline.
Proof.
  assert (H1 : ("/order" = "/order" /\ OrderPage_js = OrderPage_js) \/
               (startsWith "/order" "/product-" = true /\
                OrderPage_js = DetailsPage_js)).
  { left. split; reflexivity. }
  assert (H2 : loadable OrderPage_js offline = None).
  { vm_compute. reflexivity. }
  pose proof (load_failure_keeps_view "/order" OrderPage_js true offline
                H1 H2) as H.
  cbv zeta in H. destruct H as (Hf & Hm & _).
  split; [exact H1|]. split; [exact H2|]. split; [exact Hf | exact Hm].
Defined.

(** C8. The mounted result does not depend on the view-transition
    capability.  From a world with no transition callback pending,
    [Router.go] ends in the same way with and without
    [document.startViewTransition], and the children of [<main>] once the
    transition's callback has run are those that the immediate swap
    leaves; in both cases no callback remains pending. *)
Theorem swap_independent_of_transitions (route : string)
    (addToHistory : bool) (w : World) :
  pendingSwaps w = [] ->
  let animated := exec (go route addToHistory) (with_viewTransitions true w) in
  let immediate :=
    exec (go route addToHistory) (with_viewTransitions false w) in
  fst (go route addToHistory (with_viewTransitions true w)) =
    fst (go route addToHistory (with_viewTransitions false w)) /\
  mainChildren (runSwaps animated) = mainChildren immediate /\
  pendingSwaps (runSwaps animated) = [] /\
  pendingSwaps immediate = [].
Proof.
  intros Hpend animated immediate.
  assert (Hsel : fst (selectPage route (with_viewTransitions true w)) =
                 fst (selectPage route (with_viewTransitions false w))).
  { now rewrite !selectPage_fst. }
  pose proof (go_slot route addToHistory (with_viewTransitions true w))
    as (Hma & Hpa & _).
  pose proof (go_slot route addToHistory (with_viewTransitions false w))
    as (Hmi & Hpi & _).
  cbv zeta in Hma, Hpa, Hmi, Hpi.
  fold animated in Hma, Hpa. fold immediate in Hmi, Hpi.
  rewrite Hsel in Hma, Hpa. simpl in Hma, Hpa, Hmi, Hpi.
  rewrite Hpend in Hpa, Hpi.
  split; [now rewrite !go_fst, Hsel|].
  split; [|split; [apply runSwaps_pendingSwaps|]].
  - rewrite runSwaps_mainChildren, Hma, Hpa, Hmi.
    destruct (fst (selectPage route (with_viewTransitions false w)))
      as [[el|]|e]; reflexivity.
  - rewrite Hpi.
    destruct (fst (selectPage route (with_viewTransitions false w)))
      as [[el|]|e]; reflexivity.
Qed.

Lemma swap_independent_of_transitions_witness :
  pendingSwaps home = [] /\
  mainChildren
    (runSwaps (exec (go "/order" true) (with_viewTransitions true home))) =
  mainChildren (exec (go "/order" true) (with_viewTransitions false home)).
Proof.
  assert (H1 : pendingSwaps home = []) by (vm_compute; reflexivity).
  pose proof (swap_independent_of_transitions "/order" true home H1) as H.
  cbv zeta in H. destruct H as (_ & Hm & _).
  split; [exact H1 | exact Hm].
Defined.

(** C9, at the input where the code departs from it.  [Router.go] ends
    with the assignment [window.scrollX = 0], but [scrollX] is a read-only
    replaceable attribute of the window: whatever the route and the outcome,
    the horizontal scroll offset of the viewport is after the navigation
    what it was before, also once the pending transition callbacks have
    run; a fulfilled navigation only leaves the window with an own property
    [scrollX] of 0, so that reading [window.scrollX] yields 0 from then on.
    From the application at ["/"] scrolled by 120, a fulfilled navigation to
    ["/order"] leaves the offset at 120. *)
Theorem scroll_offset_not_reset :
  (forall (route : string) (addToHistory : bool) (w : World),
      scrollLeft (exec (go route addToHistory) w) = scrollLeft w /\
      scrollLeft (runSwaps (exec (go route addToHistory) w)) = scrollLeft w /\
      (fst (go route addToHistory w) = Normal tt ->
       get_scrollX (exec (go route addToHistory) w) = 0 /\
       get_scrollX (runSwaps (exec (go route addToHistory) w)) = 0)) /\
  fst (go "/order" true (with_scrollLeft 120 home)) = Normal tt /\
  scrollLeft (exec (go "/order" true) (with_scrollLeft 120 home)) = 120 /\
  scrollLeft (with_scrollLeft 120 home) = 120.
Proof.
  split; [|vm_compute; repeat split].
  intros route addToHistory w.
  pose proof (go_slot route addToHistory w) as (_ & _ & Hs & Ho).
  cbv zeta in Hs, Ho.
  destruct (runSwaps_scroll (exec (go route addToHistory) w)) as [Hrs Hro].
  split; [exact Hs|]. split; [now rewrite Hrs|].
  intros Hfst. rewrite Hfst in Ho. unfold get_scrollX.
  now rewrite Hro, Ho.
Qed.

(** C10. The popstate listener reads [event.state.route] unconditionally:
    for an event whose state is [null] it throws a [TypeError] and leaves
    the world as it was, without navigating.  Going back to the first entry
    of a freshly loaded document, which has no state object, after
    [Router.init] is such an event: the traversal ends with the
    [TypeError], only the current entry having changed.  (That is so for
    every document whose pathname [history.pushState] accepts as a URL;
    for any other, [Router.init] has pushed nothing and there is no entry
    to go back to.) *)
Theorem popstate_null_state_throws :
  (forall w : World, onPopState None w = (Abrupt TypeError, w)) /\
  (forall (s : Site) (u : string) (vt : bool) (net : gmap string Artifact),
      let w := exec init (boot s u vt net) in
      traverse (-1) w =
      if accepts (boot s u vt net) u
      then (Abrupt TypeError, with_history (entries w) 0 w)
      else (Normal tt, w)).
Proof.
  split; [reflexivity|].
  intros s u vt net w.
  set (w0 := with_listening true (boot s u vt net)).
  assert (Hw : w = exec (go u true) w0) by reflexivity.
  change (accepts (boot s u vt net) u) with (accepts w0 u).
  pose proof (go_entries u true w0) as [He Hc].
  rewrite <- Hw in He, Hc. simpl in He, Hc.
  destruct (accepts w0 u) eqn:Hacc.
  - assert (Hl : listening w = true).
    { rewrite Hw.
      assert (Href : refused u true w0 = false)
        by (unfold refused; now rewrite Hacc).
      rewrite go_exec by exact Href. cbv zeta.
      pose proof (selectPage_frame u
                    (pushed {| Browser.route := Some u |} (Some u) w0))
        as (_ & _ & Hl & _).
      cbv zeta in Hl.
      destruct (fst (selectPage u _)) as [page|e]; [|exact Hl].
      simpl. unfold exec, swapPage. destruct page as [el|]; [|exact Hl].
      destruct (viewTransitions _); [exact Hl|].
      unfold changePage, firstElementChild.
      destruct (mainChildren _); exact Hl. }
    unfold traverse. rewrite He, Hc, Hl. reflexivity.
  - unfold traverse. rewrite Hc. reflexivity.
Qed.

(** C6, at the input where the code departs from it.  From the
    application at ["/"] with both page modules loadable, a navigation to
    ["/product-42"] sets the title and the theme colour before the import
    of the details module is called, let alone settled; and when that
    module cannot be loaded the chrome of the details view stays set
    although the promise is rejected and the menu page is still mounted.
    The chrome values are those of the details view. *)
Theorem details_chrome_precedes_load :
  trace (exec (go "/product-42" true) home) =
    trace home ++
    [EPushState "/product-42";
     ETitle "Product Details - Coffee Shop"; EThemeColor "#f0f";
     EImport DetailsPage_js; EImportSettled DetailsPage_js true;
     ECreateElement "details-page";
     ERemove (element_of MenuView None);
     EAppend (element_of DetailsView (Some "42"));
     EScrollX 0] /\
  fst (go "/product-42" true offline) = Abrupt (LoadError DetailsPage_js) /\
  title (exec (go "/product-42" true) offline) =
    "Product Details - Coffee Shop" /\
  themeColor (exec (go "/product-42" true) offline) = "#f0f" /\
  mainChildren (exec (go "/product-42" true) offline) =
    [element_of MenuView None].
Proof. vm_compute. repeat split. Qed.

(** C7. In the registry reached by any sequence of calls and load
    completions, the load of a view was performed at most once, and every
    settled call for the view holds the result of the view's settled slot,
    so none settled before the load ended and all hold the same artifact.
    The first call for a view performs the load; a call made while the load
    is in flight or after it performs none; a call made while the load is
    in flight stays unsettled, and settles with the others, on the load's
    result, when the load ends.  A second navigation to ["/order"] performs
    no load. *)
Theorem at_most_one_load (es : list ModuleRegistry.Event) (v : string) :
  let r := run es ModuleRegistry.empty in
  (loads v r <= 1)%nat /\
  (forall (c : nat) (res : option Artifact),
      (c, v, res) ∈ settled r -> slots r !! v = Some (Loaded res)) /\
  (slots r !! v = None ->
   loads v r = 0%nat /\ loads v (ensureLoaded v r) = 1%nat) /\
  (is_Some (slots r !! v) -> started (ensureLoaded v r) = started r) /\
  (forall ws : list nat,
      slots r !! v = Some (Loading ws) ->
      settled (ensureLoaded v r) = settled r /\
      forall res : option Artifact,
        settled (complete v res (ensureLoaded v r)) =
        settled r ++ map (fun c => (c, v, res)) (ws ++ [calls r])) /\
  (forall (addToHistory : bool) (w : World),
      let w1 := exec (go "/order" addToHistory) w in
      started (registry (exec (go "/order" addToHistory) w1)) =
      started (registry w1)).
Proof.
  intros r. assert (Hwf : wf r) by apply wf_run, wf_empty.
  split; [now apply wf_loads|].
  split; [intros c res; apply (wf_settled r Hwf)|].
  split; [|split; [|split]].
  - intros Hnone.
    assert (Habs : v ∉ started r).
    { intros Hin. apply (wf_started r Hwf) in Hin.
      rewrite Hnone in Hin. destruct Hin; discriminate. }
    unfold loads, ensureLoaded. rewrite Hnone. simpl.
    rewrite loads_app, filter_eq_absent by exact Habs. simpl.
    rewrite filter_cons. destruct (decide (v = v)); [now split | congruence].
  - intros [sl Hsl]. unfold ensureLoaded. rewrite Hsl.
    now destruct sl.
  - intros ws Hws. unfold ensureLoaded. rewrite Hws. simpl.
    split; [reflexivity|]. intros res. unfold complete. simpl.
    now rewrite lookup_insert_eq.
  - intros addToHistory w w1.
    pose proof (go_order_registry addToHistory w) as [Hr Hn].
    pose proof (go_order_registry addToHistory w1) as [Hr1 _].
    cbv zeta in Hr, Hn, Hr1. fold w1 in Hr, Hn. rewrite Hr1.
    rewrite ensureLoaded_now_started. rewrite Hr at 1.
    now rewrite ensureLoaded_now_slot.
Qed.

(** C2. [write(field, value)] commits the value and then notifies: the
    field reads as the written value afterwards; the handler lists are
    untouched; and the invocations added by the write are those of the
    handlers registered for the field's notification kind, each once and in
    registration order, every one of them for that kind and seeing the
    committed state, in which the field holds the written value.  Handlers
    that subscribed one after the other are registered in that order. *)
Theorem write_commits_then_notifies (Value : Type) (f : Store.Field)
    (v : Value) (s : Store.t Value) :
  let s' := Store.write f v s in
  Store.read f s' = v /\
  Store.menuHandlers s' = Store.menuHandlers s /\
  Store.cartHandlers s' = Store.cartHandlers s /\
  (exists new : list (Store.Invocation Value),
      Store.invoked s' = Store.invoked s ++ new /\
      map Store.who new =
        map Store.hid (Store.handlers (Store.kind_of f) s) /\
      Forall (fun i => Store.what i = Store.kind_of f /\
                       Store.seen i = Store.state s' /\
                       Store.get f (Store.seen i) = v) new) /\
  (forall (a : Store.AppState Value) (k : Store.Kind)
          (hs : list (Store.Handler Value)),
      Store.handlers k (Store.subscribed a k hs) = hs).
Proof.
  cbv zeta. split; [apply get_set|]. split; [reflexivity|].
  split; [reflexivity|]. split.
  - eexists. split; [reflexivity|]. split.
    + rewrite map_map. reflexivity.
    + apply Forall_forall. intros i Hi.
      apply list_elem_of_In, in_map_iff in Hi as (h & <- & _).
      simpl. repeat split. apply get_set.
  - intros a k hs. unfold Store.subscribed.
    rewrite handlers_fold_subscribe. now destruct k.
Qed.

End Claims.

(** * Further properties of the Router *)

Section RouterMore.

Import ModuleRegistry Browser Router.

(** ** Strings *)

Lemma lastIndexOf_from_absent (c : ascii) (s : string) (i acc : Z) :
  occurs c s = false -> lastIndexOf_from s c i acc = acc.
Proof.
  revert i acc. induction s as [|a s IH]; intros i acc H; simpl in *.
  - reflexivity.
  - apply orb_false_elim in H as [Ha Hs]. rewrite Ha. now apply IH.
Qed.

Lemma lastIndexOf_from_last (c : ascii) (pre post : string) (i acc : Z) :
  occurs c post = false ->
  lastIndexOf_from (pre +:+ String c post) c i acc =
  i + Z.of_nat (String.length pre).
Proof.
  intros Hpost. revert i acc. induction pre as [|a pre IH]; intros i acc; simpl.
  - rewrite Ascii.eqb_refl, lastIndexOf_from_absent by exact Hpost. lia.
  - rewrite IH. lia.
Qed.

(** [s.substring(s.lastIndexOf(c) + 1)] is what follows a [c] that no other
    [c] follows. *)
Lemma substring_after_last_eq (c : ascii) (pre post : string) :
  occurs c post = false ->
  substring (pre +:+ String c post)
            (lastIndexOf (pre +:+ String c post) c + 1) = post.
Proof.
  intros Hpost. unfold lastIndexOf, substring.
  rewrite lastIndexOf_from_last by exact Hpost.
  replace (Z.to_nat (Z.max 0 (0 + Z.of_nat (String.length pre) + 1)))
    with (S (String.length pre)) by lia.
  apply skip_past.
Qed.

Lemma append_assoc_cons (a b : string) (c : ascii) (t : string) :
  a +:+ (b +:+ String c t) = (a +:+ b) +:+ String c t.
Proof. induction a as [|x a IH]; simpl; [reflexivity | now rewrite IH]. Qed.

(** ** Product routes *)

(** X1. A product id survives the route exactly when it holds no ['-']: with
    the details module loadable, the [switch] on ["/product-" + id] yields
    the details page for [id] if and only if [id] has no ['-'] (otherwise
    only what follows its last ['-'] is kept). *)
Theorem product_id_round_trip (id : string) (w : World) (a : Artifact) :
  loadable DetailsPage_js w = Some a ->
  (fst (selectPage ("/product-" +:+ id) w) =
     Normal (Some (element_of DetailsView (Some id)))
   <-> occurs "-" id = false).
Proof.
  intros Hload. set (route := "/product-" +:+ id).
  assert (Hp : startsWith route "/product-" = true) by apply startsWith_app.
  destruct (startsWith_product_not_static route Hp) as [E1 E2].
  rewrite selectPage_fst, E1, E2, Hp, Hload. split.
  - intros H. injection H as H.
    destruct (substring_after_last "-" route) as (pre & _ & Hno).
    { now apply startsWith_product_occurs. }
    rewrite H in Hno. exact Hno.
  - intros Hno. change route with ("/product" +:+ String "-" id).
    now rewrite substring_after_last_eq by exact Hno.
Qed.

Lemma product_id_round_trip_witness :
  loadable DetailsPage_js home = Some "DetailsPage" /\
  (fst (selectPage ("/product-" +:+ "42") home) =
     Normal (Some (element_of DetailsView (Some "42")))
   <-> occurs "-" "42" = false).
Proof.
  assert (H1 : loadable DetailsPage_js home = Some "DetailsPage").
  { vm_compute. reflexivity. }
  split; [exact H1|].
  exact (product_id_round_trip "42" home "DetailsPage" H1).
Defined.

(** ** Outcome and chrome of a navigation *)

Lemma refused_conditions (route : string) (addToHistory : bool) (w : World) :
  refused route addToHistory w = true ->
  String.eqb route "/" = false /\ String.eqb route "/order" = false /\
  startsWith route "/product-" = false.
Proof.
  intros Href.
  destruct (String.eqb route "/" || String.eqb route "/order"
            || startsWith route "/product-") eqn:E.
  - destruct (routed_not_refused route addToHistory w E) as [H _].
    congruence.
  - apply orb_false_elim in E as [E E3]. apply orb_false_elim in E as [E1 E2].
    now repeat split.
Qed.

(** X2. [Router.go] is fulfilled exactly when its push, if it asks for one,
    is accepted by the platform and the module its route needs can be
    loaded: the order module for ["/order"], the details module for a route
    beginning with ["/product-"], none for any other route. *)
Theorem navigation_outcome (route : string) (addToHistory : bool) (w : World) :
  fst (go route addToHistory w) = Normal tt <->
  refused route addToHistory w = false /\
  (route = "/order" -> is_Some (loadable OrderPage_js w)) /\
  (startsWith route "/product-" = true ->
   is_Some (loadable DetailsPage_js w)).
Proof.
  rewrite go_fst.
  destruct (refused route addToHistory w) eqn:Href.
  { split; [discriminate|]. now intros [H _]. }
  rewrite selectPage_fst.
  destruct (String.eqb route "/") eqn:E1.
  { apply String.eqb_eq in E1. subst route. split; [|reflexivity].
    intros _. split; [reflexivity|]. split; discriminate. }
  destruct (String.eqb route "/order") eqn:E2.
  { apply String.eqb_eq in E2. subst route.
    destruct (loadable OrderPage_js w) as [a|]; split.
    - intros _. split; [reflexivity|]. split; [eauto | discriminate].
    - reflexivity.
    - discriminate.
    - intros (_ & H & _). destruct (H eq_refl); discriminate. }
  apply String.eqb_neq in E2.
  destruct (startsWith route "/product-") eqn:E3.
  - destruct (loadable DetailsPage_js w) as [a|]; split.
    + intros _. split; [reflexivity|]. split; [congruence | eauto].
    + reflexivity.
    + discriminate.
    + intros (_ & _ & H). destruct (H eq_refl); discriminate.
  - split; [|reflexivity]. intros _.
    split; [reflexivity|]. split; [congruence | discriminate].
Qed.

Lemma swapPage_core (page : option Element) (w : World) :
  core (exec (swapPage page) w) = core w.
Proof.
  unfold exec, swapPage. destruct page as [el|]; [|reflexivity].
  destruct (viewTransitions w); [reflexivity|].
  unfold changePage, firstElementChild.
  now destruct (mainChildren w).
Qed.

Lemma selectPage_chrome (route : string) (w : World) :
  (title (exec (selectPage route) w), themeColor (exec (selectPage route) w)) =
  if String.eqb route "/" then ("Menu - Coffee Shop", "#fff")
  else if String.eqb route "/order" then
    match loadable OrderPage_js w with
    | Some _ => ("Your Order - Coffee Shop", "#f60")
    | None => (title w, themeColor w)
    end
  else if startsWith route "/product-"
       then ("Product Details - Coffee Shop", "#f0f")
  else (title w, themeColor w).
Proof.
  unfold exec, selectPage.
  destruct (String.eqb route "/"); [reflexivity|].
  destruct (String.eqb route "/order").
  - unfold bind. rewrite import_unfold. cbv zeta.
    destruct (loadable OrderPage_js w); reflexivity.
  - destruct (startsWith route "/product-"); [|reflexivity].
    unfold bind, setMetadata, bind. simpl. rewrite import_unfold. cbv zeta.
    match goal with |- context [loadable DetailsPage_js ?w1] =>
      destruct (loadable DetailsPage_js w1) end; reflexivity.
Qed.

(** X3. The chrome after [Router.go], for every route and world: the menu's
    for ["/"]; the order view's for ["/order"] if its module can be loaded
    and the old chrome if not; the details view's for a route beginning with
    ["/product-"] whether or not its module can be loaded; the old chrome
    for any other route. *)
Theorem chrome_after_navigation (route : string) (addToHistory : bool)
    (w : World) :
  let w' := exec (go route addToHistory) w in
  (title w', themeColor w') =
  if String.eqb route "/" then ("Menu - Coffee Shop", "#fff")
  else if String.eqb route "/order" then
    match loadable OrderPage_js w with
    | Some _ => ("Your Order - Coffee Shop", "#f60")
    | None => (title w, themeColor w)
    end
  else if startsWith route "/product-"
       then ("Product Details - Coffee Shop", "#f0f")
  else (title w, themeColor w).
Proof.
  cbv zeta. rewrite <- selectPage_chrome.
  destruct (refused route addToHistory w) eqn:Href.
  { destruct (refused_unroutable route addToHistory w Href) as (_ & _ & Hs).
    unfold exec. rewrite go_refused by exact Href. now rewrite Hs. }
  rewrite go_exec by exact Href. cbv zeta.
  set (w1 := if addToHistory then _ else w).
  assert (Hw1 : title w1 = title w /\ themeColor w1 = themeColor w /\
                loadable OrderPage_js w1 = loadable OrderPage_js w).
  { subst w1. now destruct addToHistory. }
  destruct Hw1 as (Ht & Hc & Hl).
  rewrite (selectPage_chrome route w), <- Ht, <- Hc, <- Hl,
    <- (selectPage_chrome route w1).
  destruct (fst (selectPage route w1)) as [page|e]; [|reflexivity].
  pose proof (swapPage_core page (exec (selectPage route) w1)) as Hcore.
  unfold core in Hcore. simpl. now injection Hcore as _ _ _ -> -> _ _.
Qed.

(** ** The display slot *)

(** X4. The single-page invariant.  From a world with no transition callback
    pending and at most one child in [<main>], once the callbacks of a
    navigation have run [<main>] holds exactly the new page when the
    [switch] produced one, and is as before in every other case (no page
    for the route, or a rejected import); so it never holds two pages. *)
Theorem display_slot_single_page (route : string) (addToHistory : bool)
    (w : World) :
  pendingSwaps w = [] ->
  (length (mainChildren w) <= 1)%nat ->
  mainChildren (runSwaps (exec (go route addToHistory) w)) =
    match fst (selectPage route w) with
    | Normal (Some el) => [el]
    | _ => mainChildren w
    end /\
  (length (mainChildren (runSwaps (exec (go route addToHistory) w))) <= 1)%nat.
Proof.
  intros Hpend Hlen.
  pose proof (go_slot route addToHistory w) as (Hm & Hp & _).
  cbv zeta in Hm, Hp. rewrite Hpend in Hp.
  assert (Htail : tail (mainChildren w) = []).
  { destruct (mainChildren w) as [|x [|y l]]; simpl in *; [easy | easy | lia]. }
  assert (Heq : mainChildren (runSwaps (exec (go route addToHistory) w)) =
                match fst (selectPage route w) with
                | Normal (Some el) => [el]
                | _ => mainChildren w
                end).
  { rewrite runSwaps_mainChildren, Hm, Hp.
    destruct (fst (selectPage route w)) as [[el|]|e]; try reflexivity.
    destruct (viewTransitions w); simpl; unfold swapped; now rewrite Htail. }
  split; [exact Heq|]. rewrite Heq.
  destruct (fst (selectPage route w)) as [[el|]|e]; simpl; lia.
Qed.

Lemma display_slot_single_page_witness :
  pendingSwaps home = [] /\
  (length (mainChildren home) <= 1)%nat /\
  (length (mainChildren (runSwaps (exec (go "/order" true) home))) <= 1)%nat.
Proof.
  assert (H1 : pendingSwaps home = []) by (vm_compute; reflexivity).
  assert (H2 : (length (mainChildren home) <= 1)%nat).
  { vm_compute. apply le_n. }
  pose proof (display_slot_single_page "/order" true home H1 H2) as [_ H].
  split; [exact H1|]. split; [exact H2 | exact H].
Defined.

(** ** The location *)

Lemma go_steady (route : string) (addToHistory : bool) (w : World) :
  listening (exec (go route addToHistory) w) = listening w /\
  network (exec (go route addToHistory) w) = network w /\
  viewTransitions (exec (go route addToHistory) w) = viewTransitions w /\
  site (exec (go route addToHistory) w) = site w.
Proof.
  destruct (refused route addToHistory w) eqn:Href.
  { unfold exec. rewrite go_refused by exact Href. repeat split. }
  rewrite go_exec by exact Href. cbv zeta.
  pose proof (pushed_frame route addToHistory w)
    as (Hl1 & _ & _ & _ & Hv1 & _ & _ & Hn1 & Hs1 & _).
  cbv zeta in Hl1, Hv1, Hn1, Hs1.
  set (w1 := if addToHistory then _ else w) in *.
  rewrite <- Hl1, <- Hv1, <- Hn1, <- Hs1.
  pose proof (selectPage_frame route w1)
    as (_ & _ & Hl & _ & Hv & _ & Hn & Hs & _).
  cbv zeta in Hl, Hv, Hn, Hs.
  destruct (fst (selectPage route w1)) as [page|e]; [|now repeat split].
  rewrite <- Hl, <- Hv, <- Hn, <- Hs.
  generalize (exec (selectPage route) w1). intros w2. simpl.
  unfold exec, swapPage. destruct page as [el|]; [|now repeat split].
  destruct (viewTransitions w2) eqn:E; simpl; [now repeat split|].
  unfold changePage, firstElementChild.
  destruct (mainChildren w2); simpl; now repeat split.
Qed.

(** X5. The location follows the push, not the outcome: after
    [Router.go(route)] with [addToHistory] and a route that the platform
    accepts as a URL, [location.pathname] is the pathname which that URL
    resolves to against the previous location, also when the route matches
    no page or its import is rejected; when the platform refuses the route,
    and without [addToHistory], the location is as before. *)
Theorem location_follows_push (route : string) (addToHistory : bool)
    (w : World) :
  pathname (exec (go route addToHistory) w) =
  if addToHistory && accepts w route
  then pathOf (site w) (pathname w) route
  else pathname w.
Proof.
  unfold pathname at 1. destruct (go_entries route addToHistory w) as [-> ->].
  destruct (addToHistory && accepts w route); [|reflexivity].
  now rewrite list_lookup_middle.
Qed.

(** X6. A click whose target carries the [href] of a page whose module
    cannot be loaded: the listener ends normally (the rejected promise is
    dropped), the location has moved to the pathname of the link's target,
    and [<main>] and the transition queue are as before. *)
Theorem click_swallows_load_failure (href specifier : string) (w : World) :
  (href = "/order" /\ specifier = OrderPage_js) \/
  (startsWith href "/product-" = true /\ specifier = DetailsPage_js) ->
  loadable specifier w = None ->
  fst (onNavClick (Some href) w) = Normal tt /\
  fst (go href true w) = Abrupt (LoadError specifier) /\
  pathname (exec (onNavClick (Some href)) w) =
    pathOf (site w) (pathname w) href /\
  mainChildren (exec (onNavClick (Some href)) w) = mainChildren w /\
  pendingSwaps (exec (onNavClick (Some href)) w) = pendingSwaps w.
Proof.
  intros Hroute Hload.
  change (exec (onNavClick (Some href)) w) with (exec (go href true) w).
  assert (Hsel : fst (selectPage href w) = Abrupt (LoadError specifier)).
  { rewrite selectPage_fst. destruct Hroute as [[-> ->] | [Hp ->]].
    - simpl. now rewrite Hload.
    - destruct (startsWith_product_not_static href Hp) as [-> ->].
      now rewrite Hp, Hload. }
  assert (Hrouted : String.eqb href "/" || String.eqb href "/order"
                    || startsWith href "/product-" = true).
  { destruct Hroute as [[-> _] | [Hp _]]; [reflexivity|].
    rewrite Hp. now rewrite !orb_true_r. }
  destruct (routed_not_refused href true w Hrouted) as [Href Hacc].
  pose proof (go_slot href true w) as (Hm & Hp & _).
  cbv zeta in Hm, Hp. rewrite Hsel in Hm, Hp.
  split; [reflexivity|]. split; [now rewrite go_fst, Href, Hsel|].
  split; [|split; [exact Hm | exact Hp]].
  unfold pathname at 1. destruct (go_entries href true w) as [-> ->].
  rewrite Hacc. now rewrite list_lookup_middle.
Qed.

Lemma click_swallows_load_failure_witness :
  (("/order" = "/order" /\ OrderPage_js = OrderPage_js) \/
   (startsWith "/order" "/product-" = true /\
    OrderPage_js = DetailsPage_js)) /\
  loadable OrderPage_js offline = None /\
  fst (onNavClick (Some "/order") offline) = Normal tt /\
  mainChildren (exec (onNavClick (Some "/order")) offline) =
    mainChildren offline.
Proof.
  assert (H1 : ("/order" = "/order" /\ OrderPage_js = OrderPage_js) \/
               (startsWith "/order" "/product-" = true /\
                OrderPage_js = DetailsPage_js)).
  { left. split; reflexivity. }
  assert (H2 : loadable OrderPage_js offline = None).
  { vm_compute. reflexivity. }
  pose proof (click_swallows_load_failure "/order" OrderPage_js offline H1 H2)
    as (Hf & _ & _ & Hm & _).
  split; [exact H1|]. split; [exact H2|]. split; [exact Hf | exact Hm].
Defined.

(** X13. A click whose target has no [href] attribute hands [null] to
    [Router.go]: the listener ends normally while the promise is rejected
    with a [TypeError]; an entry whose state is [{ route: null }] has been
    pushed at the unchanged location; [<main>], the transition queue and the
    registry are as before.  Replaying that entry later changes nothing. *)
Theorem click_without_href (w : World) :
  let w' := exec (onNavClick None) w in
  fst (onNavClick None w) = Normal tt /\
  fst (go_value None true w) = Abrupt TypeError /\
  entries w' =
    take (S (current w)) (entries w) ++
    [{| state := Some {| Browser.route := None |}; path := pathname w |}] /\
  pathname w' = pathname w /\
  mainChildren w' = mainChildren w /\
  pendingSwaps w' = pendingSwaps w /\
  registry w' = registry w /\
  onPopState (Some {| Browser.route := None |}) w' = (Normal tt, w').
Proof.
  cbv zeta. repeat split.
  unfold pathname at 1. simpl. now rewrite list_lookup_middle.
Qed.

(** ** Start-up and replay *)

(** X7. [Router.init] on any document: it ends normally whatever becomes of
    the first navigation and registers the popstate listener; when the
    platform accepts the document's pathname as a URL it pushes an entry for
    that pathname on top of the current entry, so that the history has grown
    by an entry whose state is [{ route: pathname }]; when the platform
    refuses it the history is as before. *)
Theorem init_pushes_initial_path (w : World) :
  fst (init w) = Normal tt /\
  listening (exec init w) = true /\
  entries (exec init w) =
    (if accepts w (pathname w)
     then take (S (current w)) (entries w) ++
          [{| state := Some {| Browser.route := Some (pathname w) |};
              path := pathOf (site w) (pathname w) (pathname w) |}]
     else entries w) /\
  current (exec init w) =
    (if accepts w (pathname w)
     then length (take (S (current w)) (entries w))
     else current w).
Proof.
  set (w0 := with_listening true w).
  assert (Hw : exec init w = exec (go (pathname w) true) w0) by reflexivity.
  rewrite Hw. split; [reflexivity|].
  destruct (go_steady (pathname w) true w0) as (Hl & _).
  destruct (go_entries (pathname w) true w0) as [He Hc].
  split; [now rewrite Hl|]. split; [exact He | exact Hc].
Qed.

(** X8. Back after two pushed navigations replays the first: with the
    listener registered and both routes accepted as URLs, after
    [Router.go(r1)] and [Router.go(r2)] the traversal by [-1] ends normally,
    being [Router.go(r1, false)] run with the previous entry current; the
    entries are kept and the location is again what it was after
    [Router.go(r1)]. *)
Theorem back_replays_previous_route (r1 r2 : string) (w : World) :
  listening w = true ->
  accepts w r1 = true -> accepts w r2 = true ->
  let w1 := exec (go r1 true) w in
  let w2 := exec (go r2 true) w1 in
  traverse (-1) w2 =
    (Normal tt,
     exec (go r1 false) (with_history (entries w2) (current w2 - 1) w2)) /\
  entries (exec (traverse (-1)) w2) = entries w2 /\
  current (exec (traverse (-1)) w2) = (current w2 - 1)%nat /\
  pathname (exec (traverse (-1)) w2) = pathname w1.
Proof.
  intros Hlisten Ha1 Ha2. cbv zeta.
  set (w1 := exec (go r1 true) w). set (w2 := exec (go r2 true) w1).
  pose proof (go_entries r1 true w) as [He1 Hc1].
  change (exec (go r1 true) w) with w1 in He1, Hc1.
  rewrite Ha1 in He1, Hc1. simpl in He1, Hc1.
  assert (Ha2' : accepts w1 r2 = true).
  { unfold accepts in *. subst w1.
    destruct (go_steady r1 true w) as (_ & _ & _ & ->). exact Ha2. }
  pose proof (go_entries r2 true w1) as [He2 Hc2].
  change (exec (go r2 true) w1) with w2 in He2, Hc2.
  rewrite Ha2' in He2, Hc2. simpl in He2, Hc2.
  set (kept := take (S (current w)) (entries w)) in *.
  set (e1 := {| state := Some {| Browser.route := Some r1 |};
                path := pathOf (site w) (pathname w) r1 |}) in *.
  assert (Hk : take (S (current w1)) (entries w1) = kept ++ [e1]).
  { rewrite He1, Hc1. apply take_ge. rewrite length_app. simpl. lia. }
  rewrite Hk in He2, Hc2. rewrite length_app in Hc2. simpl in Hc2.
  assert (Hl2 : listening w2 = true).
  { subst w2 w1. destruct (go_steady r2 true (exec (go r1 true) w)) as (-> & _).
    destruct (go_steady r1 true w) as (-> & _). exact Hlisten. }
  assert (Hlook : entries w2 !! length kept = Some e1).
  { rewrite He2, <- app_assoc. now apply list_lookup_middle. }
  assert (Htr : traverse (-1) w2 =
                (Normal tt,
                 exec (go r1 false)
                   (with_history (entries w2) (current w2 - 1) w2))).
  { unfold traverse. rewrite Hc2.
    replace (Z.of_nat (length kept + 1) + -1) with (Z.of_nat (length kept))
      by lia.
    replace (length kept + 1 - 1)%nat with (length kept) by lia.
    rewrite Nat2Z.id.
    assert (Hin : (Z.of_nat (length kept) <? 0)
                  || (Z.of_nat (length (entries w2)) <=? Z.of_nat (length kept))
                  = false).
    { rewrite He2, !length_app. simpl.
      apply orb_false_intro; [apply Z.ltb_ge | apply Z.leb_gt]; lia. }
    rewrite Hin, Hlook, Hl2. reflexivity. }
  split; [exact Htr|]. unfold exec at 1 2 3. rewrite Htr. simpl.
  set (w3 := with_history (entries w2) (current w2 - 1) w2).
  destruct (go_entries r1 false w3) as [He3 Hc3]. simpl in He3, Hc3.
  split; [exact He3|]. split; [exact Hc3|].
  unfold pathname. rewrite He3, Hc3. simpl.
  rewrite Hc2. replace (length kept + 1 - 1)%nat with (length kept) by lia.
  rewrite Hlook, He1, Hc1. now rewrite list_lookup_middle.
Qed.

Lemma back_replays_previous_route_witness :
  listening home = true /\
  accepts home "/product-42" = true /\ accepts home "/order" = true /\
  pathname
    (exec (traverse (-1)) (exec (go "/order" true)
                             (exec (go "/product-42" true) home))) =
  pathname (exec (go "/product-42" true) home).
Proof.
  assert (H1 : listening home = true) by (vm_compute; reflexivity).
  assert (H2 : accepts home "/product-42" = true) by reflexivity.
  assert (H3 : accepts home "/order" = true) by reflexivity.
  pose proof (back_replays_previous_route "/product-42" "/order" home
                H1 H2 H3) as H.
  cbv zeta in H. destruct H as (_ & _ & _ & H).
  split; [exact H1|]. split; [exact H2|]. split; [exact H3 | exact H].
Defined.

(** ** Imports *)

Lemma imports_app (l1 l2 : list Effect) :
  imports (l1 ++ l2) = imports l1 ++ imports l2.
Proof.
  induction l1 as [|e l1 IH]; [reflexivity|].
  destruct e; simpl; now rewrite IH.
Qed.

Lemma selectPage_imports (route : string) (w : World) :
  exists evs : list Effect,
    trace (exec (selectPage route) w) = trace w ++ evs /\
    imports evs =
      if String.eqb route "/order" then [OrderPage_js]
      else if startsWith route "/product-" then [DetailsPage_js]
      else [].
Proof.
  destruct (String.eqb route "/") eqn:E1.
  { apply String.eqb_eq in E1. subst route.
    eexists. split.
    - unfold exec, selectPage. simpl. rewrite <- !app_assoc. reflexivity.
    - reflexivity. }
  destruct (String.eqb route "/order") eqn:E2.
  { apply String.eqb_eq in E2. subst route.
    rewrite selectPage_order_trace. eexists. split; [reflexivity|].
    now destruct (loadable OrderPage_js w). }
  destruct (startsWith route "/product-") eqn:E3.
  { rewrite selectPage_details_trace by exact E3.
    eexists. split; [reflexivity|].
    now destruct (loadable DetailsPage_js w). }
  exists []. unfold exec, selectPage. rewrite E1, E2, E3. simpl.
  now rewrite app_nil_r.
Qed.

Lemma swapPage_imports (page : option Element) (w : World) :
  exists evs : list Effect,
    trace (exec (swapPage page) w) = trace w ++ evs /\ imports evs = [].
Proof.
  unfold exec, swapPage. destruct page as [el|].
  - destruct (viewTransitions w).
    + eexists. split; reflexivity.
    + unfold changePage, firstElementChild.
      destruct (mainChildren w); simpl; rewrite <- ?app_assoc;
        eexists; split; reflexivity.
  - exists []. simpl. now rewrite app_nil_r.
Qed.

(** X9. A navigation calls [import(...)] for the module of its own page and
    for nothing else: once for the order module on ["/order"], once for the
    details module on a route beginning with ["/product-"], each time such a
    route is visited and whatever the registry holds, and never on any other
    route. *)
Theorem imports_per_navigation (route : string) (addToHistory : bool)
    (w : World) :
  exists evs : list Effect,
    trace (exec (go route addToHistory) w) = trace w ++ evs /\
    imports evs =
      if String.eqb route "/order" then [OrderPage_js]
      else if startsWith route "/product-" then [DetailsPage_js]
      else [].
Proof.
  destruct (refused route addToHistory w) eqn:Href.
  { destruct (refused_conditions route addToHistory w Href) as (_ & -> & ->).
    unfold exec. rewrite go_refused by exact Href.
    exists []. simpl. now rewrite app_nil_r. }
  rewrite go_exec by exact Href. cbv zeta.
  set (w1 := if addToHistory then _ else w).
  assert (Hw1 : exists evs0, trace w1 = trace w ++ evs0 /\ imports evs0 = []).
  { subst w1. destruct addToHistory.
    - eexists. split; reflexivity.
    - exists []. simpl. now rewrite app_nil_r. }
  destruct Hw1 as (evs0 & Ht0 & Hi0).
  destruct (selectPage_imports route w1) as (evs1 & Ht1 & Hi1).
  destruct (fst (selectPage route w1)) as [page|e].
  - destruct (swapPage_imports page (exec (selectPage route) w1))
      as (evs2 & Ht2 & Hi2).
    exists (evs0 ++ evs1 ++ evs2 ++ [EScrollX 0]). split.
    + simpl. rewrite Ht2, Ht1, Ht0. now rewrite <- !app_assoc.
    + rewrite !imports_app, Hi0, Hi1, Hi2. simpl. now rewrite app_nil_r.
  - exists (evs0 ++ evs1). split.
    + rewrite Ht1, Ht0. now rewrite <- !app_assoc.
    + now rewrite imports_app, Hi0, Hi1.
Qed.

(** ** Sequences of navigations *)

Lemma loadable_core (u : string) (w1 w2 : World) :
  core w1 = core w2 -> loadable u w1 = loadable u w2.
Proof.
  unfold core, loadable. intros H. injection H as _ _ _ _ _ Hr Hn.
  now rewrite Hr, Hn.
Qed.

Lemma selectPage_fst_core (route : string) (w1 w2 : World) :
  core w1 = core w2 -> fst (selectPage route w1) = fst (selectPage route w2).
Proof.
  intros H. rewrite !selectPage_fst.
  now rewrite (loadable_core OrderPage_js w1 w2 H),
    (loadable_core DetailsPage_js w1 w2 H).
Qed.

Lemma import_core (specifier : string) (w1 w2 : World) :
  core w1 = core w2 ->
  core (exec (import_ specifier) w1) = core (exec (import_ specifier) w2).
Proof.
  intros H. unfold exec. rewrite !import_unfold. cbv zeta.
  rewrite (loadable_core specifier w1 w2 H).
  unfold core in *. injection H as He Hc Hl Ht Hth Hr Hn.
  destruct (loadable specifier w2); simpl; now rewrite He, Hc, Hl, Ht, Hth, Hr, Hn.
Qed.

Lemma selectPage_core (route : string) (w1 w2 : World) :
  core w1 = core w2 ->
  core (exec (selectPage route) w1) = core (exec (selectPage route) w2).
Proof.
  intros H. unfold exec, selectPage.
  destruct (String.eqb route "/").
  { unfold core in *. injection H as He Hc Hl Ht Hth Hr Hn. simpl.
    now rewrite He, Hc, Hl, Hr, Hn. }
  destruct (String.eqb route "/order").
  { unfold bind.
    pose proof (import_core OrderPage_js w1 w2 H) as Hi.
    pose proof (loadable_core OrderPage_js w1 w2 H) as Hlo.
    unfold exec in Hi. rewrite !import_unfold in *. cbv zeta in *.
    rewrite Hlo in Hi |- *. destruct (loadable OrderPage_js w2); [|exact Hi].
    unfold core in *. simpl in *.
    injection Hi as He Hc Hl Ht Hth Hr Hn.
    now rewrite He, Hc, Hl, Hr, Hn. }
  destruct (startsWith route "/product-").
  2:{ exact H. }
  unfold bind, setMetadata, bind. simpl.
  match goal with
  | |- core (snd (match import_ _ ?a with _ => _ end)) =
       core (snd (match import_ _ ?b with _ => _ end)) =>
      assert (Hab : core a = core b)
        by (unfold core in *; injection H as He Hc Hl Ht Hth Hr Hn; simpl;
            now rewrite He, Hc, Hl, Hr, Hn);
      pose proof (import_core DetailsPage_js a b Hab) as Hi;
      pose proof (loadable_core DetailsPage_js a b Hab) as Hlo;
      unfold exec in Hi; rewrite !import_unfold in *; cbv zeta in *;
      rewrite Hlo in Hi |- *; destruct (loadable DetailsPage_js b);
      [|exact Hi]
  end.
  unfold core in *. simpl in *.
  injection Hi as He Hc Hl Hr Hn.
  now rewrite He, Hc, Hl, Hr, Hn.
Qed.

Lemma go_core (route : string) (addToHistory : bool) (w1 w2 : World) :
  core w1 = core w2 -> site w1 = site w2 ->
  core (exec (go route addToHistory) w1) =
  core (exec (go route addToHistory) w2).
Proof.
  intros H Hsite.
  assert (Hacc : accepts w1 route = accepts w2 route).
  { unfold accepts. now rewrite Hsite. }
  assert (Href : refused route addToHistory w1 = refused route addToHistory w2).
  { unfold refused. now rewrite Hacc. }
  destruct (refused route addToHistory w2) eqn:Href2.
  { unfold exec. rewrite !go_refused by assumption. exact H. }
  rewrite !go_exec by assumption. cbv zeta.
  set (v1 := if addToHistory then _ else w1).
  set (v2 := if addToHistory then _ else w2).
  assert (Hv : core v1 = core v2).
  { subst v1 v2. destruct addToHistory; [|exact H].
    unfold core, pushed, pathname in *.
    injection H as He Hc Hl Ht Hth Hr Hn. simpl.
    now rewrite He, Hc, Hl, Ht, Hth, Hr, Hn, Hsite. }
  rewrite (selectPage_fst_core route v1 v2 Hv).
  pose proof (selectPage_core route v1 v2 Hv) as Hs.
  destruct (fst (selectPage route v2)) as [page|e]; [|exact Hs].
  change (core (exec (set_scrollX 0) ?x)) with (core x).
  now rewrite !swapPage_core.
Qed.

(** One navigation keeps the two runs, with and without the capability, in
    step: same core and site, and the children of [<main>] of the run
    without it are what the pending callbacks of the run with it will
    leave. *)
Lemma go_in_step (route : string) (addToHistory : bool) (wa wi : World) :
  core wa = core wi -> site wa = site wi ->
  viewTransitions wa = true -> viewTransitions wi = false ->
  pendingSwaps wi = [] ->
  fold_left (fun l el => swapped el l) (pendingSwaps wa) (mainChildren wa) =
    mainChildren wi ->
  let wa' := exec (go route addToHistory) wa in
  let wi' := exec (go route addToHistory) wi in
  core wa' = core wi' /\ site wa' = site wi' /\
  viewTransitions wa' = true /\ viewTransitions wi' = false /\
  pendingSwaps wi' = [] /\
  fold_left (fun l el => swapped el l) (pendingSwaps wa') (mainChildren wa') =
    mainChildren wi'.
Proof.
  intros Hcore Hsite Hva Hvi Hpi Hfold wa' wi'.
  split; [now apply go_core|].
  destruct (go_steady route addToHistory wa) as (_ & _ & Hva' & Hsa).
  destruct (go_steady route addToHistory wi) as (_ & _ & Hvi' & Hsi).
  split; [subst wa' wi'; congruence|].
  split; [subst wa'; congruence|]. split; [subst wi'; congruence|].
  pose proof (go_slot route addToHistory wa) as (Hma & Hpa & _).
  pose proof (go_slot route addToHistory wi) as (Hmi & Hpi' & _).
  cbv zeta in Hma, Hpa, Hmi, Hpi'.
  fold wa' in Hma, Hpa. fold wi' in Hmi, Hpi'.
  rewrite (selectPage_fst_core route wa wi Hcore), Hva in Hma, Hpa.
  rewrite Hvi, Hpi in Hpi'. rewrite Hvi in Hmi.
  rewrite Hma, Hpa, Hmi, Hpi'.
  destruct (fst (selectPage route wi)) as [[el|]|e];
    (split; [reflexivity|]); try exact Hfold.
  rewrite fold_left_app. simpl. now rewrite Hfold.
Qed.

Lemma navigate_in_step (navs : list (string * bool)) (wa wi : World) :
  core wa = core wi -> site wa = site wi ->
  viewTransitions wa = true -> viewTransitions wi = false ->
  pendingSwaps wi = [] ->
  fold_left (fun l el => swapped el l) (pendingSwaps wa) (mainChildren wa) =
    mainChildren wi ->
  core (navigate navs wa) = core (navigate navs wi) /\
  fold_left (fun l el => swapped el l) (pendingSwaps (navigate navs wa))
    (mainChildren (navigate navs wa)) =
    mainChildren (navigate navs wi).
Proof.
  revert wa wi. induction navs as [|[route addToHistory] navs IH];
    intros wa wi Hcore Hsite Hva Hvi Hpi Hfold.
  - now split.
  - simpl.
    destruct (go_in_step route addToHistory wa wi Hcore Hsite Hva Hvi Hpi
                Hfold) as (H1 & H2 & H3 & H4 & H5 & H6).
    now apply IH.
Qed.

(** X10. Any sequence of navigations, run from a world with no transition
    callback pending, mounts the same with and without the view-transition
    capability: once the pending callbacks have run, the children of
    [<main>] are those of the run without the capability, and history,
    chrome and registry agree throughout, with callbacks of several
    navigations pending at once or not. *)
Theorem navigations_independent_of_transitions
    (navs : list (string * bool)) (w : World) :
  pendingSwaps w = [] ->
  mainChildren (runSwaps (navigate navs (with_viewTransitions true w))) =
    mainChildren (navigate navs (with_viewTransitions false w)) /\
  core (navigate navs (with_viewTransitions true w)) =
    core (navigate navs (with_viewTransitions false w)).
Proof.
  intros Hpend.
  destruct (navigate_in_step navs (with_viewTransitions true w)
              (with_viewTransitions false w)) as [Hc Hf];
    try reflexivity; try exact Hpend.
  { simpl. now rewrite Hpend. }
  split; [|exact Hc]. now rewrite runSwaps_mainChildren.
Qed.

Lemma navigations_independent_of_transitions_witness :
  pendingSwaps home = [] /\
  mainChildren
    (runSwaps (navigate [("/order", true); ("/product-42", true)]
                 (with_viewTransitions true home))) =
  mainChildren
    (navigate [("/order", true); ("/product-42", true)]
       (with_viewTransitions false home)).
Proof.
  assert (H1 : pendingSwaps home = []) by (vm_compute; reflexivity).
  pose proof (navigations_independent_of_transitions
                [("/order", true); ("/product-42", true)] home H1) as [H _].
  split; [exact H1 | exact H].
Defined.

Lemma go_loadable (route u : string) (addToHistory : bool) (w : World) :
  loadable u (exec (go route addToHistory) w) = loadable u w.
Proof.
  destruct (refused route addToHistory w) eqn:Href.
  { unfold exec. now rewrite go_refused by exact Href. }
  rewrite go_exec by exact Href. cbv zeta.
  set (w1 := if addToHistory then _ else w).
  assert (Hw1 : loadable u w1 = loadable u w).
  { subst w1. now destruct addToHistory. }
  rewrite <- Hw1, <- (selectPage_loadable route u w1).
  destruct (fst (selectPage route w1)) as [page|e]; [|reflexivity].
  apply loadable_core.
  change (core (exec (set_scrollX 0) ?x)) with (core x).
  apply swapPage_core.
Qed.

(** X11. Navigating to the route that was just navigated to, a route that
    the platform accepts as a URL: the second [Router.go] ends as the first
    did and, from a [<main>] with at most one child and no callback
    pending, leaves [<main>] with children of the same tags and product ids
    once the callbacks have run, yet it pushes a second history entry for
    the route. *)
Theorem renavigation_duplicates_entry (route : string) (w : World) :
  pendingSwaps w = [] ->
  (length (mainChildren w) <= 1)%nat ->
  accepts w route = true ->
  let w1 := exec (go route true) w in
  let w2 := exec (go route true) w1 in
  fst (go route true w1) = fst (go route true w) /\
  mainChildren (runSwaps w2) = mainChildren (runSwaps w1) /\
  entries w2 =
    entries w1 ++
    [{| state := Some {| Browser.route := Some route |};
        path := pathOf (site w) (pathname w1) route |}].
Proof.
  intros Hpend Hlen Hacc. cbv zeta.
  set (w1 := exec (go route true) w). set (w2 := exec (go route true) w1).
  assert (Hsite : site w1 = site w).
  { subst w1. now destruct (go_steady route true w) as (_ & _ & _ & ->). }
  assert (Hacc1 : accepts w1 route = true).
  { unfold accepts in *. now rewrite Hsite. }
  assert (Hsel : fst (selectPage route w1) = fst (selectPage route w)).
  { rewrite !selectPage_fst. subst w1. now rewrite !go_loadable. }
  split.
  { rewrite !go_fst, Hsel. unfold refused. now rewrite Hacc, Hacc1. }
  split.
  - assert (Htail : tail (mainChildren w) = []).
    { destruct (mainChildren w) as [|x [|y l]]; simpl in *;
        [easy | easy | lia]. }
    destruct (go_steady route true w) as (_ & _ & Hv & _).
    pose proof (go_slot route true w) as (Hm1 & Hp1 & _).
    pose proof (go_slot route true w1) as (Hm2 & Hp2 & _).
    cbv zeta in Hm1, Hp1, Hm2, Hp2.
    change (exec (go route true) w) with w1 in Hm1, Hp1, Hv.
    change (exec (go route true) w1) with w2 in Hm2, Hp2.
    rewrite Hsel, Hv in Hm2, Hp2. rewrite Hpend in Hp1.
    rewrite !runSwaps_mainChildren, Hm2, Hp2, Hm1, Hp1.
    destruct (fst (selectPage route w)) as [[el|]|e]; try reflexivity.
    destruct (viewTransitions w); simpl; unfold swapped; simpl;
      now rewrite ?Htail.
  - pose proof (go_entries route true w) as [He1 Hc1].
    pose proof (go_entries route true w1) as [He2 _].
    change (exec (go route true) w) with w1 in He1, Hc1.
    change (exec (go route true) w1) with w2 in He2.
    rewrite Hacc in He1, Hc1. rewrite Hacc1 in He2. simpl in He1, Hc1, He2.
    rewrite He2, Hsite. f_equal. rewrite He1, Hc1.
    apply take_ge. rewrite length_app. simpl. lia.
Qed.

Lemma renavigation_duplicates_entry_witness :
  pendingSwaps home = [] /\
  (length (mainChildren home) <= 1)%nat /\
  accepts home "/order" = true /\
  fst (go "/order" true (exec (go "/order" true) home)) =
  fst (go "/order" true home).
Proof.
  assert (H1 : pendingSwaps home = []) by (vm_compute; reflexivity).
  assert (H2 : (length (mainChildren home) <= 1)%nat).
  { vm_compute. apply le_n. }
  assert (H3 : accepts home "/order" = true) by reflexivity.
  pose proof (renavigation_duplicates_entry "/order" home H1 H2 H3) as H.
  cbv zeta in H. destruct H as (H & _).
  split; [exact H1|]. split; [exact H2|]. split; [exact H3 | exact H].
Defined.

(** X12. [changePage] replaces the first child only: the new page comes
    last, every child after the first stays mounted, so a non-empty [<main>]
    keeps its number of children and an empty one gets its first. *)
Theorem changePage_replaces_first_child (el : Element) (w : World) :
  let after := mainChildren (exec (changePage el) w) in
  fst (changePage el w) = Normal tt /\
  after = tail (mainChildren w) ++ [el] /\
  last after = Some el /\
  length after = Nat.max 1 (length (mainChildren w)).
Proof.
  cbv zeta. rewrite changePage_mainChildren. unfold swapped.
  split; [apply changePage_normal|]. split; [reflexivity|].
  split; [apply last_snoc|].
  rewrite length_app. simpl.
  destruct (mainChildren w) as [|x l]; simpl; lia.
Qed.

End RouterMore.
